(** * The TensorFlow batch-prediction pipeline as a step graph

    A shallow embedding of
    [pipelines/pipelines/tensorflow/prediction/pipeline.py]: the pipeline
    function [tensorflow_pipeline] is a program in a small builder monad
    that records every component call as a task, every output passed to a
    later call as a data edge and every [.after(...)] as an order-only edge.

    Pipeline parameters are modelled by the values they take when the graph
    runs (the placeholders the DSL hands to the function at compile time are
    substituted by exactly these values), so a task argument is either a
    value computed from parameters and constants, or a reference to an
    output of an earlier task. *)

From Stdlib Require Import ZArith Ascii.
From stdpp Require Import base option list strings gmap.

Open Scope string_scope.
Open Scope list_scope.

(** ** Values, arguments and tasks *)

(** What flows into a component input: Python strings, ints and booleans at
    build time; at run time also the artifacts components produce. *)
Inductive value : Type :=
  | VStr (s : string)
  | VInt (z : Z)
  | VBool (b : bool)
  | VAnomalies (report : list string)
  | VArtifact (uri : string).

(** [task.output] (the single output) and [task.outputs[name]]. *)
Inductive OutputSel : Type :=
  | TheOutput
  | Output (name : string).

(** A call argument: a value known from the parameters, or a handle on an
    output of the task created as number [producer]. *)
Inductive Arg : Type :=
  | AVal (v : value)
  | AOut (producer : nat) (sel : OutputSel).

(** Python call syntax: positional or keyword. *)
Inductive ArgKey : Type :=
  | Pos (i : nat)
  | Kw (name : string).

(** The component factories the pipeline imports. *)
Inductive Component : Type :=
  | BqQueryToTable
  | ExtractBqToDataset
  | GenerateStatistics
  | VisualiseStatistics
  | ValidateSkew
  | ShowAnomalies
  | LookupModel
  | ModelBatchPredict
  | LoadDatasetToBq.

Record Task : Type := mkTask {
  component : Component;
  display_name : option string;
  inputs : list (ArgKey * Arg);
  dependent_tasks : list nat   (* order-only edges added by [.after] *)
}.

(** The graph under construction: tasks in creation order.  A task is
    identified by its position, which stands for the Python object. *)
Abbreviation Graph := (list Task).
Abbreviation TaskRef := nat.

#[global] Instance value_eq_dec : EqDecision value.
Proof. solve_decision. Defined.
#[global] Instance OutputSel_eq_dec : EqDecision OutputSel.
Proof. solve_decision. Defined.
#[global] Instance Arg_eq_dec : EqDecision Arg.
Proof. solve_decision. Defined.
#[global] Instance ArgKey_eq_dec : EqDecision ArgKey.
Proof. solve_decision. Defined.
#[global] Instance Component_eq_dec : EqDecision Component.
Proof. solve_decision. Defined.

(** First binding of a key in an association list: keyword arguments, named
    outputs, template substitutions. *)
Fixpoint assoc {K A} `{EqDecision K} (k : K) (l : list (K * A)) : option A :=
  match l with
  | [] => None
  | (k', a) :: rest => if decide (k = k') then Some a else assoc k rest
  end.

(** ** Pipeline parameters *)

Record Params : Type := mkParams {
  project_id : string;
  project_location : string;
  pipeline_files_gcs_path : string;
  ingestion_project_id : string;
  tfdv_schema_filename : string;
  tfdv_train_stats_path : string;
  model_name : string;
  model_label : string;
  dataset_id : string;
  dataset_location : string;
  ingestion_dataset_id : string;
  timestamp : string;
  batch_prediction_machine_type : string;
  batch_prediction_min_replicas : Z;
  batch_prediction_max_replicas : Z
}.

(** ** The builder monad: graph state plus build-time failure *)

Definition Build (A : Type) : Type := Graph → option (A * Graph).

Definition build_ret {A} (a : A) : Build A := λ g, Some (a, g).

Definition build_bind {A B} (m : Build A) (k : A → Build B) : Build B :=
  λ g, match m g with
       | Some (a, g') => k a g'
       | None => None
       end.

Definition build_fail {A} : Build A := λ _, None.

Definition build_lift {A} (o : option A) : Build A :=
  match o with
  | Some a => build_ret a
  | None => build_fail
  end.

Declare Scope build_scope.
Delimit Scope build_scope with build.
Notation "'let*' x ':=' m 'in' k" :=
  (build_bind m (λ x, k))
  (at level 10, x name, m at level 100, k at level 200) : build_scope.
(** Method chaining: [task.after(t).set_display_name(n)]. *)
Notation "m '.>' f" := (build_bind m f)
  (at level 50, left associativity) : build_scope.

(** Calling a component factory inside the pipeline function appends a task. *)
Definition add_task (c : Component) (ins : list (ArgKey * Arg)) : Build TaskRef :=
  λ g, Some (List.length g, g ++ [mkTask c None ins []]).

Definition update_task (f : Task → Task) (t : TaskRef) : Build TaskRef :=
  λ g, match g !! t with
       | Some tk => Some (t, <[t := f tk]> g)
       | None => None
       end.

Definition after (dep : TaskRef) : TaskRef → Build TaskRef :=
  update_task (λ tk, mkTask (component tk) (display_name tk) (inputs tk)
                            (dependent_tasks tk ++ [dep])).

Definition set_display_name (name : string) : TaskRef → Build TaskRef :=
  update_task (λ tk, mkTask (component tk) (Some name) (inputs tk)
                            (dependent_tasks tk)).

Definition kw (name : string) (a : Arg) : ArgKey * Arg := (Kw name, a).
Definition str (s : string) : Arg := AVal (VStr s).
Definition int (z : Z) : Arg := AVal (VInt z).
Definition bool_ (b : bool) : Arg := AVal (VBool b).
Definition output (t : TaskRef) : Arg := AOut t TheOutput.
Definition outputs (t : TaskRef) (name : string) : Arg := AOut t (Output name).

(** The imported factories, called with keyword arguments.  The model records
    the call and never refuses it; the real batch-prediction factory refuses
    an integer argument outside the signed 64-bit range, so a parameter record
    is a valid assignment only if its replica counts lie in that range (see
    [int64]). *)
Definition bq_query_to_table (kws : list (ArgKey * Arg)) := add_task BqQueryToTable kws.
Definition extract_bq_to_dataset (kws : list (ArgKey * Arg)) := add_task ExtractBqToDataset kws.
Definition generate_statistics (args : list (ArgKey * Arg)) := add_task GenerateStatistics args.
Definition visualise_statistics (kws : list (ArgKey * Arg)) := add_task VisualiseStatistics kws.
Definition validate_skew (kws : list (ArgKey * Arg)) := add_task ValidateSkew kws.
Definition show_anomalies (kws : list (ArgKey * Arg)) := add_task ShowAnomalies kws.
Definition lookup_model (kws : list (ArgKey * Arg)) := add_task LookupModel kws.
Definition ModelBatchPredictOp (kws : list (ArgKey * Arg)) := add_task ModelBatchPredict kws.
Definition load_dataset_to_bq (kws : list (ArgKey * Arg)) := add_task LoadDatasetToBq kws.

(** ** [json.dumps] on a flat dict of strings *)

Definition dquote : string := String "034"%char EmptyString.
Definition backslash : string := String "092"%char EmptyString.

(** Escapes the quote and the backslash only.  Python's serialiser also
    escapes control characters and, by default, non-ASCII characters; the keys
    and values the pipeline serialises are fixed ASCII identifiers, on which
    the two agree. *)
Fixpoint json_escape (s : string) : string :=
  match s with
  | EmptyString => EmptyString
  | String c rest =>
      if decide (c = "034"%char) then backslash +:+ dquote +:+ json_escape rest
      else if decide (c = "092"%char) then backslash +:+ backslash +:+ json_escape rest
      else String c (json_escape rest)
  end.

Definition json_string (s : string) : string := dquote +:+ json_escape s +:+ dquote.

Fixpoint join (sep : string) (l : list string) : string :=
  match l with
  | [] => ""
  | [x] => x
  | x :: rest => x +:+ sep +:+ join sep rest
  end.

Definition json_dumps (d : list (string * string)) : string :=
  "{" +:+ join ", " (map (λ kv, json_string kv.1 +:+ ": " +:+ json_string kv.2) d) +:+ "}".

(** ** The query templater *)

Inductive Piece : Type :=
  | Lit (text : string)
  | Hole (name : string).

Definition Template : Type := list Piece.

Definition render_piece (replacements : list (string * string)) (p : Piece) : option string :=
  match p with
  | Lit s => Some s
  | Hole x => assoc x replacements
  end.

(** Modelled from the spec: [generate_query] of the [pipelines] package is not
    part of the sources at hand.  The spec describes a templater that renders
    a parameterised query from its named substitutions and that fails at build
    time on a bad substitution. *)
Fixpoint generate_query (template : Template) (replacements : list (string * string))
  : option string :=
  match template with
  | [] => Some ""
  | p :: rest =>
      match render_piece replacements p, generate_query rest replacements with
      | Some s, Some r => Some (s +:+ r)
      | _, _ => None
      end
  end.

(** Modelled from the spec: the template file [queries/ingest.sql] is not part
    of the sources at hand.  According to the spec the rendered query reads
    the source table of the source dataset and keeps the rows whose time
    column is at or after the cutoff. *)
Definition ingest_sql : Template :=
  [ Lit "SELECT * FROM `"; Hole "source_dataset"; Lit "."; Hole "source_table";
    Lit "` WHERE "; Hole "filter_column"; Lit " >= '"; Hole "filter_start_value";
    Lit "'" ].

(** ** The pipeline function *)

Section pipeline.
Variable p : Params.
Local Open Scope build_scope.

(* Create variables to ensure the same arguments are passed
   into different components of the pipeline *)
Definition file_pattern : string := "".
Definition time_column : string := "trip_start_timestamp".
Definition ingestion_table : string := "taxi_trips".
Definition table_suffix : string := "_tf_prediction".
Definition ingested_table : string := "ingested_data" +:+ table_suffix.

Definition ingest_query_replacements : list (string * string) :=
  [ ("source_dataset", ingestion_project_id p +:+ "." +:+ ingestion_dataset_id p);
    ("source_table", ingestion_table);
    ("filter_column", time_column);
    ("filter_start_value", timestamp p) ].

Definition tfdv_schema_path : string :=
  pipeline_files_gcs_path p +:+ "/prediction/assets/" +:+ tfdv_schema_filename p.

Definition tensorflow_pipeline : Build unit :=
  let* ingest_query := build_lift (generate_query ingest_sql ingest_query_replacements) in
  (* data ingestion and preprocessing operations *)
  let kwargs :=
    [ kw "bq_client_project_id" (str (project_id p));
      kw "destination_project_id" (str (project_id p));
      kw "dataset_id" (str (dataset_id p));
      kw "dataset_location" (str (dataset_location p));
      kw "query_job_config"
         (str (json_dumps [("write_disposition", "WRITE_TRUNCATE")])) ] in
  let* ingest :=
    bq_query_to_table
      ([ kw "query" (str ingest_query); kw "table_id" (str ingested_table) ] ++ kwargs)
    .> set_display_name "Ingest data" in
  (* data extraction to gcs *)
  let* data_for_prediction :=
    extract_bq_to_dataset
      [ kw "bq_client_project_id" (str (project_id p));
        kw "source_project_id" (str (project_id p));
        kw "dataset_id" (str (dataset_id p));
        kw "table_name" (str ingested_table);
        kw "dataset_location" (str (dataset_location p));
        kw "extract_job_config"
           (str (json_dumps [("destination_format", "NEWLINE_DELIMITED_JSON")]));
        kw "file_pattern" (str file_pattern) ]
    .> after ingest
    .> set_display_name "Extract data to storage for prediction" in
  let* data_for_validation :=
    extract_bq_to_dataset
      [ kw "bq_client_project_id" (str (project_id p));
        kw "source_project_id" (str (project_id p));
        kw "dataset_id" (str (dataset_id p));
        kw "table_name" (str ingested_table);
        kw "dataset_location" (str (dataset_location p));
        kw "extract_job_config" (str (json_dumps [("destination_format", "CSV")]));
        kw "file_pattern" (str file_pattern) ]
    .> after ingest
    .> set_display_name "Extract data to storage for validation" in
  (* validate training/serving skew *)
  let* serving_stats :=
    generate_statistics
      [ (Pos 0, outputs data_for_validation "dataset");
        kw "file_pattern" (str file_pattern) ]
    .> set_display_name "Generate data statistics" in
  (* visualise statistics *)
  let* visualised_statistics :=
    visualise_statistics
      [ kw "statistics" (output serving_stats);
        kw "statistics_name" (str "Serving Statistics");
        kw "other_statistics_path" (str (tfdv_train_stats_path p));
        kw "other_statistics_name" (str "Training Statistics") ]
    .> set_display_name "Visualise data statistics" in
  let* validated_skew :=
    validate_skew
      [ kw "training_statistics_path" (str (tfdv_train_stats_path p));
        kw "schema_path" (str tfdv_schema_path);
        kw "serving_statistics" (output serving_stats);
        kw "environment" (str "SERVING") ]
    .> set_display_name "Validate data skew" in
  let* anomalies :=
    show_anomalies
      [ kw "anomalies" (output validated_skew);
        kw "fail_on_anomalies" (bool_ true) ]
    .> set_display_name "Show anomalies" in
  (* lookup champion model *)
  let* champion_model :=
    lookup_model
      [ kw "model_name" (str (model_name p));
        kw "model_label" (str (model_label p));
        kw "project_location" (str (project_location p));
        kw "project_id" (str (project_id p));
        kw "fail_on_model_not_found" (bool_ true) ]
    .> set_display_name "Lookup champion model" in
  (* predict data *)
  let gcs_source_uris := outputs data_for_prediction "dataset_gcs_uri" in
  let gcs_destination_output_uri_prefix :=
    outputs data_for_prediction "dataset_gcs_prefix" in
  let* batch_prediction :=
    ModelBatchPredictOp
      [ kw "project" (str (project_id p));
        kw "job_display_name" (str "my-tensorflow-batch-prediction-job");
        kw "location" (str (project_location p));
        kw "model" (outputs champion_model "model");
        kw "instances_format" (str "jsonl");
        kw "predictions_format" (str "jsonl");
        kw "gcs_source_uris" gcs_source_uris;
        kw "gcs_destination_output_uri_prefix" gcs_destination_output_uri_prefix;
        kw "machine_type" (str (batch_prediction_machine_type p));
        kw "starting_replica_count" (int (batch_prediction_min_replicas p));
        kw "max_replica_count" (int (batch_prediction_max_replicas p)) ]
    .> after anomalies
    .> set_display_name "Vertex Batch Predictions for TF model" in
  (* load predictions into bigquery *)
  let* loaded_data :=
    load_dataset_to_bq
      [ kw "bq_client_project_id" (str (project_id p));
        kw "destination_project_id" (str (project_id p));
        kw "dataset_id" (str (dataset_id p));
        kw "table_name" (str "tensorflow_staging_predictions");
        kw "dataset" (outputs batch_prediction "batchpredictionjob");
        kw "dataset_location" (str (dataset_location p)) ]
    .> after batch_prediction
    .> set_display_name "Load predictions into Bigquery" in
  build_ret ().

(** The graph handed to the compiler: the pipeline function run in an
    empty context. *)
Definition pipeline_graph : option Graph := snd <$> tensorflow_pipeline [].
End pipeline.

(** Sample parameter values.  The literal defaults are those of the source;
    the defaults the source reads from the environment get sample values. *)
Definition example_params : Params :=
  {| project_id := "my-project";
     project_location := "europe-west2";
     pipeline_files_gcs_path := "gs://bucket";
     ingestion_project_id := "my-project";
     tfdv_schema_filename := "tfdv_schema_serving.pbtxt";
     tfdv_train_stats_path := "gs://bucket/train_stats/train.stats";
     model_name := "tensorflow_with_preprocessing";
     model_label := "label_name";
     dataset_id := "preprocessing";
     dataset_location := "europe-west2";
     ingestion_dataset_id := "chicago_taxi_trips";
     timestamp := "2022-12-01 00:00:00";
     batch_prediction_machine_type := "n1-standard-4";
     batch_prediction_min_replicas := 3;
     batch_prediction_max_replicas := 10 |}.

(** The local variables of the pipeline function that hold tasks, as the
    positions at which the tasks are created. *)
Definition ingest : TaskRef := 0.
Definition data_for_prediction : TaskRef := 1.
Definition data_for_validation : TaskRef := 2.
Definition serving_stats : TaskRef := 3.
Definition visualised_statistics : TaskRef := 4.
Definition validated_skew : TaskRef := 5.
Definition anomalies : TaskRef := 6.
Definition champion_model : TaskRef := 7.
Definition batch_prediction : TaskRef := 8.
Definition loaded_data : TaskRef := 9.

(** ** Edges of a graph *)

Definition arg_producer (a : Arg) : list nat :=
  match a with
  | AVal _ => []
  | AOut d _ => [d]
  end.

(** Tasks whose outputs a task reads. *)
Definition data_deps (t : Task) : list nat :=
  flat_map (λ ka, arg_producer ka.2) (inputs t).

(** Both kinds of dependency: data and order-only. *)
Definition deps (t : Task) : list nat := data_deps t ++ dependent_tasks t.

Definition data_edge (g : Graph) (d i : nat) : Prop :=
  ∃ t, g !! i = Some t ∧ d ∈ data_deps t.

Definition order_edge (g : Graph) (d i : nat) : Prop :=
  ∃ t, g !! i = Some t ∧ d ∈ dependent_tasks t.

Definition edge (g : Graph) (d i : nat) : Prop :=
  ∃ t, g !! i = Some t ∧ d ∈ deps t.

Definition acyclic (g : Graph) : Prop := ∀ i, ¬ tc (edge g) i i.

(** The keyword argument [name] of task number [i]. *)
Definition input_of (g : Graph) (i : TaskRef) (name : string) : option Arg :=
  t ← g !! i; assoc (Kw name) (inputs t).

(** Every dependency of every task was created before the task. *)
Definition wired_in_order (g : Graph) : bool :=
  forallb (λ it, forallb (λ d, Nat.ltb d it.1) (deps it.2)) (imap pair g).

(** A task all of whose inputs are parameter-derived values and that waits
    for no other task. *)
Definition depends_only_on_parameters (t : Task) : Prop := deps t = [].

Definition component_of (g : Graph) (i : TaskRef) : option Component :=
  component <$> g !! i.


(** ** Running a graph

    The execution engine is outside the repository.  The model keeps what
    the spec fixes about it: a step is scheduled at most once, only when
    every step it depends on (by data or by order) has succeeded; any step
    may fail; a failed step produces no output.  Scheduling and completion
    are one transition.  Steps that do not depend on each other may be
    taken in any order. *)

Inductive Outcome : Type :=
  | Succeeded (outs : list (OutputSel * value))
  | Failed.

#[global] Instance Outcome_eq_dec : EqDecision Outcome.
Proof. solve_decision. Defined.

(** The outcome of every step scheduled so far. *)
Abbreviation RunState := (gmap nat Outcome).

Definition resolve (s : RunState) (a : Arg) : option value :=
  match a with
  | AVal v => Some v
  | AOut d sel =>
      match s !! d with
      | Some (Succeeded outs) => assoc sel outs
      | _ => None
      end
  end.

Fixpoint resolve_inputs (s : RunState) (ins : list (ArgKey * Arg))
  : option (list (ArgKey * value)) :=
  match ins with
  | [] => Some []
  | (k, a) :: rest =>
      match resolve s a, resolve_inputs s rest with
      | Some v, Some vs => Some ((k, v) :: vs)
      | _, _ => None
      end
  end.

(** The resolved inputs a step of the graph is given in a run state. *)
Definition step_inputs (g : Graph) (s : RunState) (i : TaskRef)
  : option (list (ArgKey * value)) :=
  t ← g !! i; resolve_inputs s (inputs t).

(** Modelled from the spec: the body of the [show_anomalies] component is not
    part of the sources at hand.  The gate inspects the anomaly report; if it
    is configured to fail on anomalies and any are present it fails, and with
    no anomalies, or configured permissive, execution proceeds. *)
Definition show_anomalies_run (ins : list (ArgKey * value)) : Outcome :=
  match assoc (Kw "anomalies") ins, assoc (Kw "fail_on_anomalies") ins with
  | Some (VAnomalies report), Some (VBool fail_on_anomalies) =>
      if fail_on_anomalies && negb (bool_decide (report = []))
      then Failed
      else Succeeded []
  | _, _ => Failed
  end.

Record RegisteredModel : Type := mkModel {
  reg_project : string;
  reg_location : string;
  reg_name : string;
  reg_labels : list string;
  reg_resource : string
}.

Definition Registry : Type := list RegisteredModel.

Definition model_matches (project location name label : string) (m : RegisteredModel) : bool :=
  bool_decide (reg_project m = project) && bool_decide (reg_location m = location)
  && bool_decide (reg_name m = name) && bool_decide (label ∈ reg_labels m).

Definition find_model (reg : Registry) (project location name label : string)
  : option RegisteredModel :=
  find (model_matches project location name label) reg.

(** Modelled from the spec: the body of the [lookup_model] component is not
    part of the sources at hand.  It looks up a registered model by name and
    label for the given project and location, and fails if none exists and
    failure-on-missing is enabled.  The spec does not say what a permissive
    lookup yields when nothing matches: here it succeeds without a model. *)
Definition lookup_model_run (reg : Registry) (ins : list (ArgKey * value)) : Outcome :=
  match assoc (Kw "model_name") ins, assoc (Kw "model_label") ins,
        assoc (Kw "project_location") ins, assoc (Kw "project_id") ins,
        assoc (Kw "fail_on_model_not_found") ins with
  | Some (VStr name), Some (VStr label), Some (VStr location), Some (VStr project),
    Some (VBool fail_on_model_not_found) =>
      match find_model reg project location name label with
      | Some m => Succeeded [(Output "model", VArtifact (reg_resource m))]
      | None => if fail_on_model_not_found then Failed else Succeeded []
      end
  | _, _, _, _, _ => Failed
  end.

(** Which outputs a component may succeed with on given inputs.  The gate
    and the model lookup follow their bodies; the connectors and engines are
    black boxes that may produce anything. *)
Definition may_succeed (reg : Registry) (c : Component)
    (ins : list (ArgKey * value)) (outs : list (OutputSel * value)) : Prop :=
  match c with
  | ShowAnomalies => show_anomalies_run ins = Succeeded outs
  | LookupModel => lookup_model_run reg ins = Succeeded outs
  | _ => True
  end.

#[global] Instance may_succeed_dec reg c ins outs : Decision (may_succeed reg c ins outs).
Proof. destruct c; simpl; apply _. Defined.

Definition upstream_succeeded (s : RunState) (t : Task) : Prop :=
  Forall (λ d, ∃ outs, s !! d = Some (Succeeded outs)) (deps t).

Definition upstream_succeededb (s : RunState) (t : Task) : bool :=
  forallb (λ d, match s !! d with Some (Succeeded _) => true | _ => false end) (deps t).

Inductive step (reg : Registry) (g : Graph) : RunState → RunState → Prop :=
  | step_succeed i t ins outs s :
      g !! i = Some t →
      s !! i = None →
      upstream_succeeded s t →
      resolve_inputs s (inputs t) = Some ins →
      may_succeed reg (component t) ins outs →
      step reg g s (<[i := Succeeded outs]> s)
  | step_fail i t s :
      g !! i = Some t →
      s !! i = None →
      upstream_succeeded s t →
      step reg g s (<[i := Failed]> s).

Definition reachable (reg : Registry) (g : Graph) (s : RunState) : Prop :=
  rtc (step reg g) ∅ s.

(** A step has been scheduled once the run state records its outcome. *)
Definition scheduled (s : RunState) (i : TaskRef) : Prop := is_Some (s !! i).

(** Replaying a schedule: each entry names the step taken next and its
    outcome; the replay checks what [step] demands. *)
Definition replay_one (reg : Registry) (g : Graph) (s : RunState)
    (e : nat * Outcome) : option RunState :=
  match g !! e.1, s !! e.1 with
  | Some t, None =>
      if upstream_succeededb s t then
        match e.2 with
        | Failed => Some (<[e.1 := Failed]> s)
        | Succeeded outs =>
            match resolve_inputs s (inputs t) with
            | Some ins =>
                if decide (may_succeed reg (component t) ins outs)
                then Some (<[e.1 := Succeeded outs]> s)
                else None
            | None => None
            end
        end
      else None
  | _, _ => None
  end.

Fixpoint replay (reg : Registry) (g : Graph) (s : RunState)
    (schedule : list (nat * Outcome)) : option RunState :=
  match schedule with
  | [] => Some s
  | e :: rest =>
      match replay_one reg g s e with
      | Some s' => replay reg g s' rest
      | None => None
      end
  end.

(** What a recorded outcome tells about the past of a run: the step is a
    step of the graph, its upstream steps have succeeded, and a success was
    one its component allows on the inputs it was given. *)
Definition justified (reg : Registry) (g : Graph) (s : RunState)
    (i : nat) (o : Outcome) : Prop :=
  ∃ t, g !! i = Some t ∧ upstream_succeeded s t ∧
       ∀ outs, o = Succeeded outs →
               ∃ ins, resolve_inputs s (inputs t) = Some ins ∧
                      may_succeed reg (component t) ins outs.

(** ** The graph the pipeline function builds *)

Definition built_graph (p : Params) : Graph := default [] (pipeline_graph p).

(** What the scheduler sees of a task. *)
Definition wiring (t : Task) : Component * option string * list nat * list nat :=
  (component t, display_name t, data_deps t, dependent_tasks t).

(** The steps that depend, by data or by order, on step [d]. *)
Definition consumers (g : Graph) (d : TaskRef) : list nat :=
  (imap pair g) ≫= (λ it, if bool_decide (d ∈ deps it.2) then [it.1] else []).

(** The schema location in the spec's words: base path, fixed sub-path and
    file name, joined as path segments. *)
Definition schema_path_spec (base_path schema_filename : string) : string :=
  join "/" [base_path; "prediction/assets"; schema_filename].

(** Boolean readings of the edge relations of one step. *)
Definition data_edgeb (g : Graph) (d i : nat) : bool :=
  match g !! i with
  | Some t => bool_decide (d ∈ data_deps t)
  | None => false
  end.

Definition order_edgeb (g : Graph) (d i : nat) : bool :=
  match g !! i with
  | Some t => bool_decide (d ∈ dependent_tasks t)
  | None => false
  end.

(** All dependencies of a step, if the graph has the step. *)
Definition deps_of (g : Graph) (i : TaskRef) : option (list nat) :=
  deps <$> g !! i.

(** [needle] occurs in [text]. *)
Definition contains (needle text : string) : Prop :=
  ∃ pre post, text = pre +:+ needle +:+ post.

(** The check behind "every [c] step is called with [name] set to [a]". *)
Definition called_with (c : Component) (name : string) (a : Arg) (t : Task) : bool :=
  if decide (component t = c)
  then bool_decide (assoc (Kw name) (inputs t) = Some a)
  else true.

(** A run in which validation has reported skew: ingest, the validation
    export, statistics and skew validation have succeeded. *)
Definition skewed_schedule : list (nat * Outcome) :=
  [ (ingest, Succeeded []);
    (data_for_validation,
     Succeeded [(Output "dataset", VArtifact "gs://bucket/run/validation")]);
    (serving_stats, Succeeded [(TheOutput, VArtifact "gs://bucket/run/serving.stats")]);
    (validated_skew, Succeeded [(TheOutput, VAnomalies ["fare: distribution skew"])]) ].

Definition skewed_run : RunState :=
  default ∅ (replay [] (built_graph example_params) ∅ skewed_schedule).

(** A registry that holds the model the sample parameters name, and a run in
    which no skew is found: every step succeeds, in creation order. *)
Definition example_registry : Registry :=
  [ mkModel "my-project" "europe-west2" "tensorflow_with_preprocessing"
            ["label_name"] "projects/my-project/models/42" ].

Definition healthy_schedule : list (nat * Outcome) :=
  [ (ingest, Succeeded []);
    (data_for_prediction,
     Succeeded [ (Output "dataset", VArtifact "gs://bucket/run/prediction");
                 (Output "dataset_gcs_uri", VStr "gs://bucket/run/prediction/*");
                 (Output "dataset_gcs_prefix", VStr "gs://bucket/run/prediction") ]);
    (data_for_validation,
     Succeeded [(Output "dataset", VArtifact "gs://bucket/run/validation")]);
    (serving_stats, Succeeded [(TheOutput, VArtifact "gs://bucket/run/serving.stats")]);
    (visualised_statistics, Succeeded []);
    (validated_skew, Succeeded [(TheOutput, VAnomalies [])]);
    (anomalies, Succeeded []);
    (champion_model,
     Succeeded [(Output "model", VArtifact "projects/my-project/models/42")]);
    (batch_prediction,
     Succeeded [(Output "batchpredictionjob", VArtifact "gs://bucket/run/predictions")]);
    (loaded_data, Succeeded []) ].

(** The signed 64-bit range, outside of which the real builder refuses an
    integer argument. *)
Definition int64 (z : Z) : Prop := (- 2 ^ 63 ≤ z < 2 ^ 63)%Z.






(** A run against an empty model registry in which the lookup was tried. *)
Definition no_model_schedule : list (nat * Outcome) :=
  [ (ingest, Succeeded []); (champion_model, Failed) ].

Definition no_model_run : RunState :=
  default ∅ (replay [] (built_graph example_params) ∅ no_model_schedule).

(** ** Parameter groups, ancestors and shared arguments *)

(** The parameter record [p] with one group of parameters replaced. *)
Definition with_ingestion (p : Params) (project dataset cutoff : string) : Params :=
  mkParams (project_id p) (project_location p) (pipeline_files_gcs_path p)
           project (tfdv_schema_filename p) (tfdv_train_stats_path p)
           (model_name p) (model_label p) (dataset_id p) (dataset_location p)
           dataset cutoff (batch_prediction_machine_type p)
           (batch_prediction_min_replicas p) (batch_prediction_max_replicas p).

Definition with_model (p : Params) (name label : string) : Params :=
  mkParams (project_id p) (project_location p) (pipeline_files_gcs_path p)
           (ingestion_project_id p) (tfdv_schema_filename p) (tfdv_train_stats_path p)
           name label (dataset_id p) (dataset_location p)
           (ingestion_dataset_id p) (timestamp p) (batch_prediction_machine_type p)
           (batch_prediction_min_replicas p) (batch_prediction_max_replicas p).

Definition with_batch_sizing (p : Params) (machine : string) (min_replicas max_replicas : Z)
  : Params :=
  mkParams (project_id p) (project_location p) (pipeline_files_gcs_path p)
           (ingestion_project_id p) (tfdv_schema_filename p) (tfdv_train_stats_path p)
           (model_name p) (model_label p) (dataset_id p) (dataset_location p)
           (ingestion_dataset_id p) (timestamp p) machine min_replicas max_replicas.

Definition with_schema (p : Params) (base_path schema_filename : string) : Params :=
  mkParams (project_id p) (project_location p) base_path
           (ingestion_project_id p) schema_filename (tfdv_train_stats_path p)
           (model_name p) (model_label p) (dataset_id p) (dataset_location p)
           (ingestion_dataset_id p) (timestamp p) (batch_prediction_machine_type p)
           (batch_prediction_min_replicas p) (batch_prediction_max_replicas p).

Definition with_train_stats (p : Params) (stats_path : string) : Params :=
  mkParams (project_id p) (project_location p) (pipeline_files_gcs_path p)
           (ingestion_project_id p) (tfdv_schema_filename p) stats_path
           (model_name p) (model_label p) (dataset_id p) (dataset_location p)
           (ingestion_dataset_id p) (timestamp p) (batch_prediction_machine_type p)
           (batch_prediction_min_replicas p) (batch_prediction_max_replicas p).

(** A task without its keyword argument [name]. *)
Definition drop_input (name : string) (t : Task) : Task :=
  mkTask (component t) (display_name t)
         (filter (λ ka, ka.1 ≠ Kw name) (inputs t)) (dependent_tasks t).

(** Whenever the task is called with the keyword [name], the argument is [a]. *)
Definition passes (name : string) (a : Arg) (t : Task) : Prop :=
  ∀ a', assoc (Kw name) (inputs t) = Some a' → a' = a.

(** The steps that are called with the keyword [name]. *)
Definition carriers (g : Graph) (name : string) : list nat :=
  (imap pair g) ≫= (λ it, match assoc (Kw name) (inputs it.2) with Some _ => [it.1] | None => [] end).

(** The steps a step depends on directly or through other steps, found by
    following dependencies at most [fuel] levels up. *)
Fixpoint ancestors_upto (g : Graph) (fuel : nat) (i : nat) : list nat :=
  match fuel with
  | 0 => []
  | S fuel' =>
      match g !! i with
      | Some t => deps t ++ flat_map (ancestors_upto g fuel') (deps t)
      | None => []
      end
  end.

Definition ancestors (g : Graph) (i : TaskRef) : gset nat :=
  list_to_set (ancestors_upto g (List.length g) i).

Definition healthy_run : RunState :=
  default ∅ (replay example_registry (built_graph example_params) ∅ healthy_schedule).

(** A run in which everything succeeds except the visualisation, which fails. *)
Definition unseen_schedule : list (nat * Outcome) :=
  [ (ingest, Succeeded []);
    (data_for_prediction,
     Succeeded [ (Output "dataset", VArtifact "gs://bucket/run/prediction");
                 (Output "dataset_gcs_uri", VStr "gs://bucket/run/prediction/*");
                 (Output "dataset_gcs_prefix", VStr "gs://bucket/run/prediction") ]);
    (data_for_validation,
     Succeeded [(Output "dataset", VArtifact "gs://bucket/run/validation")]);
    (serving_stats, Succeeded [(TheOutput, VArtifact "gs://bucket/run/serving.stats")]);
    (visualised_statistics, Failed);
    (validated_skew, Succeeded [(TheOutput, VAnomalies [])]);
    (anomalies, Succeeded []);
    (champion_model,
     Succeeded [(Output "model", VArtifact "projects/my-project/models/42")]);
    (batch_prediction,
     Succeeded [(Output "batchpredictionjob", VArtifact "gs://bucket/run/predictions")]);
    (loaded_data, Succeeded []) ].

Definition unseen_run : RunState :=
  default ∅ (replay example_registry (built_graph example_params) ∅ unseen_schedule).

(** A run in which ingestion has failed while the model lookup went through. *)
Definition failed_ingest_schedule : list (nat * Outcome) :=
  [ (champion_model,
     Succeeded [(Output "model", VArtifact "projects/my-project/models/42")]);
    (ingest, Failed) ].

Definition failed_ingest_run : RunState :=
  default ∅ (replay example_registry (built_graph example_params) ∅ failed_ingest_schedule).

(** Closed facts about the built graph are settled by evaluating the builder. *)
Ltac by_evaluation := vm_compute; reflexivity.

(** * Properties *)

(** ** The engine, for any graph *)

Section engine.
Variable reg : Registry.
Variable g : Graph.

Lemma upstream_succeededb_spec (s : RunState) t :
  upstream_succeededb s t = true ↔ upstream_succeeded s t.
Proof.
  unfold upstream_succeededb, upstream_succeeded.
  rewrite forallb_forall, Forall_forall. split; intros H d Hd.
  - apply list_elem_of_In in Hd. specialize (H d Hd).
    destruct (s !! d) as [[outs|]|]; try discriminate. eauto.
  - apply list_elem_of_In in Hd. destruct (H d Hd) as [outs ->]. reflexivity.
Qed.

(** Outcomes are never revised. *)
Lemma step_grows (s s' : RunState) : step reg g s s' → s ⊆ s'.
Proof. destruct 1; by apply insert_subseteq. Qed.

Lemma resolve_weaken (s s' : RunState) a v :
  s ⊆ s' → resolve s a = Some v → resolve s' a = Some v.
Proof.
  intros Hsub. destruct a as [w|d sel]; simpl; [done|].
  destruct (s !! d) as [[outs|]|] eqn:Hd; try discriminate.
  by rewrite (lookup_weaken _ _ _ _ Hd Hsub).
Qed.

Lemma resolve_inputs_weaken (s s' : RunState) ins vs :
  s ⊆ s' → resolve_inputs s ins = Some vs → resolve_inputs s' ins = Some vs.
Proof.
  intros Hsub. revert vs. induction ins as [|[k a] rest IH]; intros vs; simpl; [done|].
  destruct (resolve s a) as [v|] eqn:Ha; [|discriminate].
  destruct (resolve_inputs s rest) as [ws|] eqn:Hr; [|discriminate].
  intros [= <-]. by rewrite (resolve_weaken _ _ _ _ Hsub Ha), (IH ws).
Qed.

Lemma upstream_succeeded_weaken (s s' : RunState) t :
  s ⊆ s' → upstream_succeeded s t → upstream_succeeded s' t.
Proof.
  intros Hsub Hup. unfold upstream_succeeded in *.
  eapply Forall_impl; [exact Hup|].
  intros d [outs Hd]. exists outs. by eapply lookup_weaken.
Qed.

Lemma justified_weaken (s s' : RunState) i o :
  s ⊆ s' → justified reg g s i o → justified reg g s' i o.
Proof.
  intros Hsub (t & Ht & Hup & Hout). exists t. split; [done|]. split.
  - by eapply upstream_succeeded_weaken.
  - intros outs Ho. destruct (Hout outs Ho) as (ins & Hins & Hok).
    exists ins. split; [by eapply resolve_inputs_weaken | done].
Qed.

Lemma reachable_justified (s : RunState) :
  reachable reg g s → ∀ i o, s !! i = Some o → justified reg g s i o.
Proof.
  unfold reachable. revert s.
  apply (rtc_ind_r (λ s : RunState, ∀ i o, s !! i = Some o → justified reg g s i o)).
  - intros i o Hi. by rewrite lookup_empty in Hi.
  - intros s1 s2 Hrun Hstep IH i o Hi. pose proof (step_grows _ _ Hstep) as Hsub.
    destruct Hstep as [j t ins outs s Hj Hfresh Hup Hins Hok | j t s Hj Hfresh Hup].
    + destruct (decide (j = i)) as [->|Hne].
      * rewrite lookup_insert_eq in Hi. injection Hi as <-.
        exists t. split; [done|]. split; [by eapply upstream_succeeded_weaken|].
        intros outs' [= <-]. exists ins. split; [by eapply resolve_inputs_weaken | done].
      * rewrite lookup_insert_ne in Hi by done.
        eapply justified_weaken; [exact Hsub | by apply IH].
    + destruct (decide (j = i)) as [->|Hne].
      * rewrite lookup_insert_eq in Hi. injection Hi as <-.
        exists t. split; [done|]. split; [by eapply upstream_succeeded_weaken|].
        intros outs' [=].
      * rewrite lookup_insert_ne in Hi by done.
        eapply justified_weaken; [exact Hsub | by apply IH].
Qed.

(** A step that has been scheduled had all its upstream steps succeed. *)
Lemma scheduled_after_upstream (s : RunState) i t d :
  reachable reg g s → g !! i = Some t → scheduled s i → d ∈ deps t →
  ∃ outs, s !! d = Some (Succeeded outs).
Proof.
  intros Hrun Ht [o Ho] Hd.
  destruct (reachable_justified s Hrun i o Ho) as (t' & Ht' & Hup & _).
  assert (t' = t) as -> by congruence.
  unfold upstream_succeeded in Hup. rewrite Forall_forall in Hup. by apply Hup.
Qed.

(** A step that has succeeded did so on its resolved inputs. *)
Lemma succeeded_on_inputs (s : RunState) i outs :
  reachable reg g s → s !! i = Some (Succeeded outs) →
  ∃ t ins, g !! i = Some t ∧ step_inputs g s i = Some ins ∧
           may_succeed reg (component t) ins outs.
Proof.
  intros Hrun Ho.
  destruct (reachable_justified s Hrun i _ Ho) as (t & Ht & _ & Hout).
  destruct (Hout outs eq_refl) as (ins & Hins & Hok).
  exists t, ins. unfold step_inputs. rewrite Ht. simpl. done.
Qed.

Lemma replay_one_step (s s' : RunState) e :
  replay_one reg g s e = Some s' → step reg g s s'.
Proof.
  unfold replay_one. destruct e as [i o]; simpl.
  destruct (g !! i) as [t|] eqn:Ht; [|discriminate].
  destruct (s !! i) eqn:Hi; [discriminate|].
  destruct (upstream_succeededb s t) eqn:Hup; [|discriminate].
  apply upstream_succeededb_spec in Hup.
  destruct o as [outs|].
  - destruct (resolve_inputs s (inputs t)) as [ins|] eqn:Hins; [|discriminate].
    case_decide; [|discriminate]. intros [= <-]. by eapply step_succeed.
  - intros [= <-]. by eapply step_fail.
Qed.

Lemma replay_from (s s' : RunState) schedule :
  reachable reg g s → replay reg g s schedule = Some s' → reachable reg g s'.
Proof.
  revert s. induction schedule as [|e rest IH]; intros s Hrun; simpl.
  - by intros [= <-].
  - destruct (replay_one reg g s e) as [s1|] eqn:He; [|discriminate].
    apply IH. eapply rtc_r; [exact Hrun | exact (replay_one_step _ _ _ He)].
Qed.

Lemma replay_reachable (s : RunState) schedule :
  replay reg g ∅ schedule = Some s → reachable reg g s.
Proof. apply replay_from. apply rtc_refl. Qed.

(** Edges that all point backwards in creation order admit no cycle. *)
Lemma wired_in_order_edge d i : wired_in_order g = true → edge g d i → d < i.
Proof.
  unfold wired_in_order. rewrite forallb_forall.
  intros Hall (t & Ht & Hd).
  assert (In (i, t) (imap pair g)) as Hin.
  { apply list_elem_of_In, list_elem_of_lookup. exists i.
    rewrite list_lookup_imap, Ht. done. }
  specialize (Hall _ Hin). simpl in Hall. rewrite forallb_forall in Hall.
  apply list_elem_of_In in Hd. specialize (Hall _ Hd).
  by apply Nat.ltb_lt in Hall.
Qed.

Lemma wired_in_order_path d i : wired_in_order g = true → tc (edge g) d i → d < i.
Proof.
  intros Hw Hp. induction Hp as [d i He | d j i He _ IH].
  - by apply wired_in_order_edge.
  - apply wired_in_order_edge in He; [lia | done].
Qed.

Lemma wired_in_order_acyclic : wired_in_order g = true → acyclic g.
Proof. intros Hw i Hp. apply wired_in_order_path in Hp; [lia | done]. Qed.
End engine.

(** ** Graphs in general *)

Section graphs.
Variable g : Graph.

Lemma data_edgeb_spec d i : data_edgeb g d i = true ↔ data_edge g d i.
Proof.
  unfold data_edgeb, data_edge. destruct (g !! i) as [t|]; split.
  - intros H. apply bool_decide_eq_true in H. eauto.
  - intros (t' & [= <-] & H). by apply bool_decide_eq_true.
  - discriminate.
  - intros (t' & [=] & _).
Qed.

Lemma order_edgeb_spec d i : order_edgeb g d i = true ↔ order_edge g d i.
Proof.
  unfold order_edgeb, order_edge. destruct (g !! i) as [t|]; split.
  - intros H. apply bool_decide_eq_true in H. eauto.
  - intros (t' & [= <-] & H). by apply bool_decide_eq_true.
  - discriminate.
  - intros (t' & [=] & _).
Qed.

Lemma data_edgeb_false d i : data_edgeb g d i = false → ¬ data_edge g d i.
Proof. intros Hb He. apply data_edgeb_spec in He. congruence. Qed.

Lemma order_edge_edge d i : order_edge g d i → edge g d i.
Proof.
  intros (t & Ht & Hd). exists t. split; [done|].
  unfold deps. apply elem_of_app. by right.
Qed.

Lemma data_edge_edge d i : data_edge g d i → edge g d i.
Proof.
  intros (t & Ht & Hd). exists t. split; [done|].
  unfold deps. apply elem_of_app. by left.
Qed.

Lemma data_deps_input t k d sel : (k, AOut d sel) ∈ inputs t → d ∈ data_deps t.
Proof.
  intros Hin. unfold data_deps. apply list_elem_of_In, in_flat_map.
  exists (k, AOut d sel). split; [by apply list_elem_of_In | simpl; auto].
Qed.

Lemma consumers_edge d j : j ∈ consumers g d ↔ edge g d j.
Proof.
  unfold consumers, edge. rewrite list_elem_of_bind. split.
  - intros ([j' t] & Hj & Hin). simpl in Hj.
    apply list_elem_of_lookup in Hin as [n Hn].
    rewrite list_lookup_imap in Hn.
    destruct (g !! n) as [t'|] eqn:Ht; [|discriminate]. simpl in Hn.
    injection Hn as <- <-. case_bool_decide as Hd; [|by apply not_elem_of_nil in Hj].
    apply list_elem_of_singleton in Hj as ->. eauto.
  - intros (t & Ht & Hd). exists (j, t). simpl. split.
    + rewrite bool_decide_eq_true_2 by done. by apply list_elem_of_singleton.
    + apply list_elem_of_lookup. exists j. by rewrite list_lookup_imap, Ht.
Qed.

(** A step nothing depends on reaches no step. *)
Lemma no_consumers d :
  consumers g d = [] → (∀ j, ¬ edge g d j) ∧ (∀ j, ¬ tc (edge g) d j).
Proof.
  intros Hnone.
  assert (∀ j, ¬ edge g d j) as Hedge.
  { intros j He. apply consumers_edge in He. rewrite Hnone in He.
    by apply not_elem_of_nil in He. }
  split; [done|]. intros j Hp. destruct Hp as [? ? He | ? ? ? He _]; by eapply Hedge.
Qed.

(** Creation order is a topological order. *)
Lemma wired_in_order_resolved :
  wired_in_order g = true →
  acyclic g ∧
  (∀ i t k d sel, g !! i = Some t → (k, AOut d sel) ∈ inputs t →
                  d < i ∧ is_Some (g !! d)) ∧
  (∀ i t d, g !! i = Some t → d ∈ dependent_tasks t → d < i ∧ is_Some (g !! d)).
Proof.
  intros Hw.
  assert (∀ i t d, g !! i = Some t → d ∈ deps t → d < i ∧ is_Some (g !! d)) as Hdeps.
  { intros i t d Ht Hd.
    assert (d < i) as Hlt by (eapply wired_in_order_edge; [exact Hw | by exists t]).
    split; [done|]. apply lookup_lt_is_Some.
    apply lookup_lt_Some in Ht. lia. }
  split; [by apply wired_in_order_acyclic|]. split.
  - intros i t k d sel Ht Hin. apply (Hdeps i t d Ht).
    unfold deps. apply elem_of_app. left. by eapply data_deps_input.
  - intros i t d Ht Hin. apply (Hdeps i t d Ht).
    unfold deps. apply elem_of_app. by right.
Qed.

(** A step without dependencies is called on values only. *)
Lemma only_parameters i :
  deps_of g i = Some [] →
  ∀ t, g !! i = Some t →
       depends_only_on_parameters t ∧ ∀ k a, (k, a) ∈ inputs t → ∃ v, a = AVal v.
Proof.
  unfold deps_of. intros Hdeps t Ht. rewrite Ht in Hdeps. injection Hdeps as Hdeps.
  split; [done|]. intros k a Hin. destruct a as [v|d sel]; [eauto|].
  apply data_deps_input in Hin.
  assert (d ∈ deps t) as Hd by (unfold deps; apply elem_of_app; by left).
  rewrite Hdeps in Hd. by apply not_elem_of_nil in Hd.
Qed.

Lemma called_with_all c name a :
  forallb (called_with c name a) g = true →
  ∀ i t, g !! i = Some t → component t = c → assoc (Kw name) (inputs t) = Some a.
Proof.
  rewrite forallb_forall. intros Hall i t Ht Hc.
  assert (In t g) as Hin by (apply list_elem_of_In, list_elem_of_lookup; eauto).
  specialize (Hall t Hin). unfold called_with in Hall.
  rewrite decide_True in Hall by done. by apply bool_decide_eq_true in Hall.
Qed.
End graphs.

(** ** Runs in general: what a failed or blocked step blocks *)

Section runs.
Variable reg : Registry.
Variable g : Graph.

Lemma run_grows (s s' : RunState) : rtc (step reg g) s s' → s ⊆ s'.
Proof.
  induction 1 as [|s1 s2 s3 Hstep _ IH]; [done|].
  etrans; [by eapply step_grows | exact IH].
Qed.

Lemma reachable_later (s s' : RunState) :
  reachable reg g s → rtc (step reg g) s s' → reachable reg g s'.
Proof. unfold reachable. intros H1 H2. by etrans. Qed.

Lemma step_inputs_weaken (s s' : RunState) i ins :
  s ⊆ s' → step_inputs g s i = Some ins → step_inputs g s' i = Some ins.
Proof.
  unfold step_inputs. intros Hsub. destruct (g !! i) as [t|]; simpl; [|done].
  by apply resolve_inputs_weaken.
Qed.

(** A component that cannot succeed on the inputs its step is given never
    has a success recorded. *)
Lemma never_succeeds (s : RunState) i c ins :
  reachable reg g s →
  component_of g i = Some c →
  step_inputs g s i = Some ins →
  (∀ outs, ¬ may_succeed reg c ins outs) →
  ∀ outs, s !! i ≠ Some (Succeeded outs).
Proof.
  intros Hrun Hc Hins Hnever outs Ho.
  destruct (succeeded_on_inputs reg g s i outs Hrun Ho) as (t & ins' & Ht & Hins' & Hok).
  unfold component_of in Hc. rewrite Ht in Hc. injection Hc as <-.
  rewrite Hins in Hins'. injection Hins' as <-. by eapply Hnever.
Qed.

(** A step downstream of a step that has not succeeded is not scheduled. *)
Lemma blocked_by_upstream (s : RunState) d i :
  reachable reg g s →
  edge g d i →
  (∀ outs, s !! d ≠ Some (Succeeded outs)) →
  ¬ scheduled s i.
Proof.
  intros Hrun (t & Ht & Hd) Hnot Hsch.
  destruct (scheduled_after_upstream reg g s i t d Hrun Ht Hsch Hd) as [outs Ho].
  by eapply Hnot.
Qed.

Lemma unscheduled_not_succeeded (s : RunState) i :
  ¬ scheduled s i → ∀ outs, s !! i ≠ Some (Succeeded outs).
Proof. intros Hn outs Ho. apply Hn. unfold scheduled. rewrite Ho. eauto. Qed.
End runs.

Lemma show_anomalies_run_fails ins report :
  assoc (Kw "anomalies") ins = Some (VAnomalies report) →
  report ≠ [] →
  assoc (Kw "fail_on_anomalies") ins = Some (VBool true) →
  show_anomalies_run ins = Failed.
Proof.
  intros Hrep Hne Hflag. unfold show_anomalies_run. rewrite Hrep, Hflag.
  by rewrite bool_decide_eq_false_2.
Qed.

Lemma show_anomalies_run_passes ins flag :
  assoc (Kw "anomalies") ins = Some (VAnomalies []) →
  assoc (Kw "fail_on_anomalies") ins = Some (VBool flag) →
  show_anomalies_run ins = Succeeded [].
Proof.
  intros Hrep Hflag. unfold show_anomalies_run. rewrite Hrep, Hflag.
  by destruct flag.
Qed.

Lemma lookup_model_run_missing reg project location name label :
  find_model reg project location name label = None →
  lookup_model_run reg
    [ (Kw "model_name", VStr name); (Kw "model_label", VStr label);
      (Kw "project_location", VStr location); (Kw "project_id", VStr project);
      (Kw "fail_on_model_not_found", VBool true) ] = Failed.
Proof. intros Hnone. unfold lookup_model_run. simpl. by rewrite Hnone. Qed.

(** The gate step of a graph blocks whatever is downstream of it once it is
    given a report with anomalies and told to fail on them. *)
Lemma gate_blocks_downstream reg (g : Graph) (s s' : RunState) gate ins report i :
  component_of g gate = Some ShowAnomalies →
  reachable reg g s →
  step_inputs g s gate = Some ins →
  assoc (Kw "anomalies") ins = Some (VAnomalies report) →
  report ≠ [] →
  assoc (Kw "fail_on_anomalies") ins = Some (VBool true) →
  rtc (step reg g) s s' →
  edge g gate i →
  ¬ scheduled s' i.
Proof.
  intros Hc Hrun Hins Hrep Hne Hflag Hlater Hedge.
  pose proof (reachable_later reg g s s' Hrun Hlater) as Hrun'.
  eapply blocked_by_upstream; [exact Hrun' | exact Hedge |].
  eapply never_succeeds; [exact Hrun' | exact Hc | |].
  - exact (step_inputs_weaken g s s' gate ins (run_grows reg g s s' Hlater) Hins).
  - intros outs Hok. simpl in Hok.
    rewrite (show_anomalies_run_fails ins report Hrep Hne Hflag) in Hok. discriminate.
Qed.

(** ** The graph of the prediction pipeline *)

(** Graph construction never fails: the template names only substitutions
    that the pipeline function supplies. *)
Lemma pipeline_graph_built (p : Params) : pipeline_graph p = Some (built_graph p).
Proof. by_evaluation. Qed.

Lemma pipeline_graph_is_built (p : Params) (g : Graph) :
  pipeline_graph p = Some g → g = built_graph p.
Proof. unfold built_graph. intros ->. reflexivity. Qed.

(** The steps in creation order, with what each depends on. *)
Lemma built_graph_wiring (p : Params) :
  map wiring (built_graph p) =
  [ (BqQueryToTable, Some "Ingest data", [], []);
    (ExtractBqToDataset, Some "Extract data to storage for prediction", [], [ingest]);
    (ExtractBqToDataset, Some "Extract data to storage for validation", [], [ingest]);
    (GenerateStatistics, Some "Generate data statistics", [data_for_validation], []);
    (VisualiseStatistics, Some "Visualise data statistics", [serving_stats], []);
    (ValidateSkew, Some "Validate data skew", [serving_stats], []);
    (ShowAnomalies, Some "Show anomalies", [validated_skew], []);
    (LookupModel, Some "Lookup champion model", [], []);
    (ModelBatchPredict, Some "Vertex Batch Predictions for TF model",
     [champion_model; data_for_prediction; data_for_prediction], [anomalies]);
    (LoadDatasetToBq, Some "Load predictions into Bigquery", [batch_prediction],
     [batch_prediction]) ].
Proof. by_evaluation. Qed.

Lemma built_graph_wired_in_order (p : Params) : wired_in_order (built_graph p) = true.
Proof. by_evaluation. Qed.

Lemma append_assoc (a b c : string) : (a +:+ b) +:+ c = a +:+ (b +:+ c).
Proof.
  induction a as [|x a IH]; [reflexivity|].
  change (String x ((a +:+ b) +:+ c) = String x (a +:+ (b +:+ c))). by rewrite IH.
Qed.

Example json_dumps_write_truncate :
  json_dumps [("write_disposition", "WRITE_TRUNCATE")] =
  "{" +:+ dquote +:+ "write_disposition" +:+ dquote +:+ ": "
      +:+ dquote +:+ "WRITE_TRUNCATE" +:+ dquote +:+ "}".
Proof. by_evaluation. Qed.

(** C2: for every parameter assignment the builder yields a graph; the graph
    has no cycle; every output a step reads, and every step it is ordered
    after, belongs to a step created strictly earlier; and in every run a
    step is scheduled only once all the steps it depends on have succeeded. *)
Theorem built_graph_acyclic_inputs_resolved (p : Params) :
  ∃ g, pipeline_graph p = Some g ∧
       acyclic g ∧
       (∀ i t k d sel, g !! i = Some t → (k, AOut d sel) ∈ inputs t →
                       d < i ∧ is_Some (g !! d)) ∧
       (∀ i t d, g !! i = Some t → d ∈ dependent_tasks t → d < i ∧ is_Some (g !! d)) ∧
       (∀ reg s i t d, reachable reg g s → g !! i = Some t → scheduled s i →
                       d ∈ deps t → ∃ outs, s !! d = Some (Succeeded outs)).
Proof.
  exists (built_graph p). split; [apply pipeline_graph_built|].
  destruct (wired_in_order_resolved (built_graph p) (built_graph_wired_in_order p))
    as (Hacyclic & Hdata & Horder).
  split; [exact Hacyclic|]. split; [exact Hdata|]. split; [exact Horder|].
  intros reg s i t d. apply scheduled_after_upstream.
Qed.

(** C4: with the ingestion dataset [chicago_taxi_trips] and the cutoff
    [2022-12-01 00:00:00], the pipeline function calls the templater with the
    source dataset [<ingestion project>.chicago_taxi_trips], the table
    [taxi_trips], the column [trip_start_timestamp] and the cutoff; the query
    rendered from the template, which is the query the ingest step runs,
    filters [trip_start_timestamp >= '2022-12-01 00:00:00'] against
    [<ingestion project>.chicago_taxi_trips.taxi_trips]. *)
Theorem ingest_query_filters_from_cutoff (p : Params) :
  ingestion_dataset_id p = "chicago_taxi_trips" →
  timestamp p = "2022-12-01 00:00:00" →
  ∃ g q,
    pipeline_graph p = Some g ∧
    ingest_query_replacements p =
      [ ("source_dataset", ingestion_project_id p +:+ ".chicago_taxi_trips");
        ("source_table", "taxi_trips");
        ("filter_column", "trip_start_timestamp");
        ("filter_start_value", "2022-12-01 00:00:00") ] ∧
    generate_query ingest_sql (ingest_query_replacements p) = Some q ∧
    input_of g ingest "query" = Some (str q) ∧
    contains "trip_start_timestamp >= '2022-12-01 00:00:00'" q ∧
    contains (ingestion_project_id p +:+ ".chicago_taxi_trips.taxi_trips") q.
Proof.
  intros Hds Hts.
  exists (built_graph p),
    ("SELECT * FROM `" +:+ (ingestion_project_id p +:+ ".chicago_taxi_trips")
       +:+ ".taxi_trips` WHERE trip_start_timestamp >= '2022-12-01 00:00:00'").
  split; [apply pipeline_graph_built|].
  destruct p as [? ? ? pid ? ? ? ? ? ? ds ts ? ? ?]. simpl in Hds, Hts. subst ds ts.
  split; [by_evaluation|]. split; [by_evaluation|]. split; [by_evaluation|].
  cbn [ingestion_project_id]. split.
  - exists ("SELECT * FROM `" +:+ pid +:+ ".chicago_taxi_trips.taxi_trips` WHERE "), "".
    rewrite !append_assoc. by_evaluation.
  - exists "SELECT * FROM `", "` WHERE trip_start_timestamp >= '2022-12-01 00:00:00'".
    rewrite !append_assoc. by_evaluation.
Qed.

Lemma ingest_query_filters_from_cutoff_witness :
  ∃ g q,
    pipeline_graph example_params = Some g ∧
    ingest_query_replacements example_params =
      [ ("source_dataset", ingestion_project_id example_params +:+ ".chicago_taxi_trips");
        ("source_table", "taxi_trips");
        ("filter_column", "trip_start_timestamp");
        ("filter_start_value", "2022-12-01 00:00:00") ] ∧
    generate_query ingest_sql (ingest_query_replacements example_params) = Some q ∧
    input_of g ingest "query" = Some (str q) ∧
    contains "trip_start_timestamp >= '2022-12-01 00:00:00'" q ∧
    contains (ingestion_project_id example_params +:+ ".chicago_taxi_trips.taxi_trips") q.
Proof. apply (ingest_query_filters_from_cutoff example_params); reflexivity. Defined.

(** C5: the schema path the skew validator is given is the base storage
    path, the fixed sub-path [prediction/assets] and the schema file name
    joined as path segments, for every base path and file name; with
    [gs://bucket] and [schema.pbtxt] it is
    [gs://bucket/prediction/assets/schema.pbtxt]. *)
Theorem schema_path_joins_base_assets_filename (p : Params) :
  ∃ g,
    pipeline_graph p = Some g ∧
    tfdv_schema_path p =
      schema_path_spec (pipeline_files_gcs_path p) (tfdv_schema_filename p) ∧
    input_of g validated_skew "schema_path" = Some (str (tfdv_schema_path p)) ∧
    (pipeline_files_gcs_path p = "gs://bucket" →
     tfdv_schema_filename p = "schema.pbtxt" →
     tfdv_schema_path p = "gs://bucket/prediction/assets/schema.pbtxt").
Proof.
  exists (built_graph p). split; [apply pipeline_graph_built|].
  split; [by_evaluation|]. split; [by_evaluation|].
  intros Hbase Hfile. unfold tfdv_schema_path. rewrite Hbase, Hfile. by_evaluation.
Qed.

(** C6: the ingest step runs the rendered query into the table
    ["ingested_data"] plus the fixed suffix, with write disposition
    [WRITE_TRUNCATE], and depends on no other step: all its inputs are
    values derived from the parameters and it is ordered after nothing. *)
Theorem ingest_truncates_into_ingested_table (p : Params) :
  ∃ g q,
    pipeline_graph p = Some g ∧
    component_of g ingest = Some BqQueryToTable ∧
    generate_query ingest_sql (ingest_query_replacements p) = Some q ∧
    input_of g ingest "query" = Some (str q) ∧
    table_suffix = "_tf_prediction" ∧
    input_of g ingest "table_id" = Some (str ("ingested_data" +:+ table_suffix)) ∧
    input_of g ingest "query_job_config" =
      Some (str (json_dumps [("write_disposition", "WRITE_TRUNCATE")])) ∧
    deps_of g ingest = Some [] ∧
    (∀ t, g !! ingest = Some t →
          depends_only_on_parameters t ∧ ∀ k a, (k, a) ∈ inputs t → ∃ v, a = AVal v).
Proof.
  exists (built_graph p),
    (default "" (generate_query ingest_sql (ingest_query_replacements p))).
  split; [apply pipeline_graph_built|].
  do 7 (split; [by_evaluation|]).
  apply only_parameters. by_evaluation.
Qed.



(** C8: the ingested-table name and the schema path of the built graph are
    functions of the parameters alone, the first of none of them and the
    second of the base path and the schema file name only: two builds whose
    parameters agree on these, in particular two builds with identical
    parameter values, give the same table name and the same schema path. *)
Theorem derived_names_deterministic (p1 p2 : Params) :
  pipeline_files_gcs_path p1 = pipeline_files_gcs_path p2 →
  tfdv_schema_filename p1 = tfdv_schema_filename p2 →
  ∃ g1 g2 table schema,
    pipeline_graph p1 = Some g1 ∧
    pipeline_graph p2 = Some g2 ∧
    input_of g1 ingest "table_id" = Some (str table) ∧
    input_of g2 ingest "table_id" = Some (str table) ∧
    input_of g1 validated_skew "schema_path" = Some (str schema) ∧
    input_of g2 validated_skew "schema_path" = Some (str schema).
Proof.
  intros Hbase Hfile.
  exists (built_graph p1), (built_graph p2), ingested_table, (tfdv_schema_path p1).
  do 2 (split; [apply pipeline_graph_built|]).
  do 3 (split; [by_evaluation|]).
  replace (tfdv_schema_path p1) with (tfdv_schema_path p2)
    by (unfold tfdv_schema_path; rewrite Hbase, Hfile; reflexivity).
  by_evaluation.
Qed.

Lemma derived_names_deterministic_witness :
  ∃ g1 g2 table schema,
    pipeline_graph example_params = Some g1 ∧
    pipeline_graph example_params = Some g2 ∧
    input_of g1 ingest "table_id" = Some (str table) ∧
    input_of g2 ingest "table_id" = Some (str table) ∧
    input_of g1 validated_skew "schema_path" = Some (str schema) ∧
    input_of g2 validated_skew "schema_path" = Some (str schema).
Proof. apply (derived_names_deterministic example_params example_params); reflexivity. Defined.

(** C9: nothing depends on the statistics-visualisation step, by data or by
    order: it has no edge and no path to any step, in particular none to the
    skew validator, the anomaly gate, batch inference or load predictions;
    the validator depends on the statistics step only and the gate on the
    validator only. *)
Theorem visualisation_feeds_nothing (p : Params) :
  ∃ g,
    pipeline_graph p = Some g ∧
    component_of g visualised_statistics = Some VisualiseStatistics ∧
    consumers g visualised_statistics = [] ∧
    (∀ j, ¬ edge g visualised_statistics j) ∧
    (∀ j, ¬ tc (edge g) visualised_statistics j) ∧
    deps_of g validated_skew = Some [serving_stats] ∧
    deps_of g anomalies = Some [validated_skew].
Proof.
  exists (built_graph p). split; [apply pipeline_graph_built|].
  do 2 (split; [by_evaluation|]).
  destruct (no_consumers (built_graph p) visualised_statistics ltac:(by_evaluation))
    as [Hedge Hpath].
  split; [exact Hedge|]. split; [exact Hpath|]. split; by_evaluation.
Qed.

(** C10: whatever the parameters, every anomaly-gate step of the built graph
    is called with [fail_on_anomalies=True] and every model-lookup step with
    [fail_on_model_not_found=True], and the graph has both steps. *)
Theorem failure_points_always_strict (p : Params) :
  ∃ g,
    pipeline_graph p = Some g ∧
    component_of g anomalies = Some ShowAnomalies ∧
    component_of g champion_model = Some LookupModel ∧
    (∀ i t, g !! i = Some t → component t = ShowAnomalies →
            assoc (Kw "fail_on_anomalies") (inputs t) = Some (AVal (VBool true))) ∧
    (∀ i t, g !! i = Some t → component t = LookupModel →
            assoc (Kw "fail_on_model_not_found") (inputs t) = Some (AVal (VBool true))).
Proof.
  exists (built_graph p). split; [apply pipeline_graph_built|].
  do 2 (split; [by_evaluation|]).
  split; apply called_with_all; by_evaluation.
Qed.

(** ** Runs of the prediction pipeline *)

(** C1: batch inference is ordered after the anomaly gate by an order-only
    edge (it reads none of the gate's outputs) and load predictions depends
    on batch inference; so once the gate is given a report with at least one
    anomaly, with fail-on-anomalies enabled, neither batch inference nor load
    predictions is scheduled in that state of the run or in any later one. *)
Theorem anomaly_gate_blocks_inference
    (p : Params) (reg : Registry) (g : Graph) (s s' : RunState)
    (ins : list (ArgKey * value)) (report : list string) :
  pipeline_graph p = Some g →
  reachable reg g s →
  step_inputs g s anomalies = Some ins →
  assoc (Kw "anomalies") ins = Some (VAnomalies report) →
  report ≠ [] →
  assoc (Kw "fail_on_anomalies") ins = Some (VBool true) →
  rtc (step reg g) s s' →
  component_of g anomalies = Some ShowAnomalies ∧
  component_of g batch_prediction = Some ModelBatchPredict ∧
  component_of g loaded_data = Some LoadDatasetToBq ∧
  (order_edge g anomalies batch_prediction ∧ ¬ data_edge g anomalies batch_prediction) ∧
  (data_edge g batch_prediction loaded_data ∧ order_edge g batch_prediction loaded_data) ∧
  ¬ scheduled s' batch_prediction ∧
  ¬ scheduled s' loaded_data.
Proof.
  intros Hg Hrun Hins Hrep Hne Hflag Hlater.
  apply pipeline_graph_is_built in Hg. subst g.
  assert (order_edge (built_graph p) anomalies batch_prediction) as Hgate
    by (apply order_edgeb_spec; by_evaluation).
  assert (order_edge (built_graph p) batch_prediction loaded_data) as Hload
    by (apply order_edgeb_spec; by_evaluation).
  assert (¬ scheduled s' batch_prediction) as Hbatch.
  { apply (gate_blocks_downstream reg (built_graph p) s s' anomalies ins report
             batch_prediction ltac:(by_evaluation) Hrun Hins Hrep Hne Hflag Hlater).
    apply order_edge_edge. exact Hgate. }
  do 3 (split; [by_evaluation|]).
  split; [split; [exact Hgate | apply data_edgeb_false; by_evaluation]|].
  split; [split; [apply data_edgeb_spec; by_evaluation | exact Hload]|].
  split; [exact Hbatch|].
  apply (blocked_by_upstream reg (built_graph p) s' batch_prediction loaded_data).
  - exact (reachable_later reg _ s s' Hrun Hlater).
  - apply order_edge_edge. exact Hload.
  - apply unscheduled_not_succeeded. exact Hbatch.
Qed.

(** The engine model does schedule inference when nothing is wrong: with the
    model registered and an empty anomaly report, all ten steps succeed. *)
Example healthy_run_completes :
  ∃ s, replay example_registry (built_graph example_params) ∅ healthy_schedule = Some s ∧
       reachable example_registry (built_graph example_params) s ∧
       s !! loaded_data = Some (Succeeded []) ∧
       size s = 10.
Proof.
  exists (default ∅ (replay example_registry (built_graph example_params) ∅ healthy_schedule)).
  split; [by_evaluation|].
  split; [apply (replay_reachable _ _ _ healthy_schedule); by_evaluation|].
  split; by_evaluation.
Qed.

(** With skew reported, the gate itself can only fail. *)
Example skewed_gate_cannot_pass :
  replay_one [] (built_graph example_params) skewed_run (anomalies, Succeeded []) = None ∧
  is_Some (replay_one [] (built_graph example_params) skewed_run (anomalies, Failed)).
Proof. split; [by_evaluation|]. vm_compute. eauto. Qed.

Lemma anomaly_gate_blocks_inference_witness :
  component_of (built_graph example_params) anomalies = Some ShowAnomalies ∧
  component_of (built_graph example_params) batch_prediction = Some ModelBatchPredict ∧
  component_of (built_graph example_params) loaded_data = Some LoadDatasetToBq ∧
  (order_edge (built_graph example_params) anomalies batch_prediction ∧
   ¬ data_edge (built_graph example_params) anomalies batch_prediction) ∧
  (data_edge (built_graph example_params) batch_prediction loaded_data ∧
   order_edge (built_graph example_params) batch_prediction loaded_data) ∧
  ¬ scheduled skewed_run batch_prediction ∧
  ¬ scheduled skewed_run loaded_data.
Proof.
  apply (anomaly_gate_blocks_inference example_params [] (built_graph example_params)
           skewed_run skewed_run
           [ (Kw "anomalies", VAnomalies ["fare: distribution skew"]);
             (Kw "fail_on_anomalies", VBool true) ]
           ["fare: distribution skew"]).
  - vm_compute; reflexivity.
  - apply (replay_reachable _ _ _ skewed_schedule). vm_compute; reflexivity.
  - vm_compute; reflexivity.
  - reflexivity.
  - discriminate.
  - reflexivity.
  - apply rtc_refl.
Defined.

(** C3: the lookup step is called with [fail_on_model_not_found=True] and
    batch inference reads its [model] output; so when no registered model
    matches the given name and label, the lookup step, once run, has failed,
    and neither batch inference nor load predictions is scheduled in any
    state of the run. *)
Theorem missing_model_halts_before_inference
    (p : Params) (reg : Registry) (g : Graph) (s : RunState) :
  pipeline_graph p = Some g →
  find_model reg (project_id p) (project_location p) (model_name p) (model_label p) = None →
  reachable reg g s →
  component_of g champion_model = Some LookupModel ∧
  input_of g champion_model "fail_on_model_not_found" = Some (bool_ true) ∧
  input_of g batch_prediction "model" = Some (outputs champion_model "model") ∧
  (∀ o, s !! champion_model = Some o → o = Failed) ∧
  ¬ scheduled s batch_prediction ∧
  ¬ scheduled s loaded_data.
Proof.
  intros Hg Hnone Hrun.
  apply pipeline_graph_is_built in Hg. subst g.
  assert (∀ outs, s !! champion_model ≠ Some (Succeeded outs)) as Hlookup.
  { apply (never_succeeds reg (built_graph p) s champion_model LookupModel
             [ (Kw "model_name", VStr (model_name p));
               (Kw "model_label", VStr (model_label p));
               (Kw "project_location", VStr (project_location p));
               (Kw "project_id", VStr (project_id p));
               (Kw "fail_on_model_not_found", VBool true) ]
             Hrun ltac:(by_evaluation) ltac:(by_evaluation)).
    intros outs Hok. unfold may_succeed in Hok.
    rewrite (lookup_model_run_missing reg _ _ _ _ Hnone) in Hok. discriminate. }
  assert (¬ scheduled s batch_prediction) as Hbatch.
  { apply (blocked_by_upstream reg (built_graph p) s champion_model batch_prediction Hrun);
      [|exact Hlookup].
    apply data_edge_edge, data_edgeb_spec. by_evaluation. }
  do 3 (split; [by_evaluation|]).
  split; [|split; [exact Hbatch|]].
  - intros [outs|] Ho; [|reflexivity]. destruct (Hlookup outs Ho).
  - apply (blocked_by_upstream reg (built_graph p) s batch_prediction loaded_data Hrun).
    + apply data_edge_edge, data_edgeb_spec. by_evaluation.
    + apply unscheduled_not_succeeded. exact Hbatch.
Qed.

Lemma missing_model_halts_before_inference_witness :
  component_of (built_graph example_params) champion_model = Some LookupModel ∧
  input_of (built_graph example_params) champion_model "fail_on_model_not_found"
    = Some (bool_ true) ∧
  input_of (built_graph example_params) batch_prediction "model"
    = Some (outputs champion_model "model") ∧
  (∀ o, no_model_run !! champion_model = Some o → o = Failed) ∧
  ¬ scheduled no_model_run batch_prediction ∧
  ¬ scheduled no_model_run loaded_data.
Proof.
  apply (missing_model_halts_before_inference example_params []
           (built_graph example_params) no_model_run).
  - vm_compute; reflexivity.
  - reflexivity.
  - apply (replay_reachable _ _ _ no_model_schedule). vm_compute; reflexivity.
Defined.

(** ** Ancestors, and steps nothing depends on *)

Section ancestry.
Variable g : Graph.

Lemma tc_edge_last d i :
  tc (edge g) d i → edge g d i ∨ ∃ j, tc (edge g) d j ∧ edge g j i.
Proof.
  revert i. apply tc_ind_r.
  - intros i He. by left.
  - intros j i Hp He _. right. eauto.
Qed.

Lemma ancestors_upto_sound fuel i d :
  d ∈ ancestors_upto g fuel i → tc (edge g) d i.
Proof.
  revert i. induction fuel as [|fuel IH]; intros i; simpl.
  - intros H. by apply not_elem_of_nil in H.
  - destruct (g !! i) as [t|] eqn:Ht; [|intros H; by apply not_elem_of_nil in H].
    intros [H|H]%elem_of_app.
    + apply tc_once. by exists t.
    + apply list_elem_of_In, in_flat_map in H as (j & Hj & Hd).
      apply list_elem_of_In in Hj, Hd.
      eapply tc_r; [by apply IH|]. by exists t.
Qed.

Lemma ancestors_upto_complete fuel i d :
  wired_in_order g = true → i < fuel → tc (edge g) d i →
  d ∈ ancestors_upto g fuel i.
Proof.
  intros Hw. revert i d. induction fuel as [|fuel IH]; intros i d Hlt Hp; [lia|].
  simpl. destruct (tc_edge_last d i Hp) as [(t & Ht & Hd) | (j & Hpj & He)].
  - rewrite Ht. apply elem_of_app. by left.
  - pose proof (wired_in_order_edge g j i Hw He) as Hji.
    destruct He as (t & Ht & Hj). rewrite Ht. apply elem_of_app. right.
    apply list_elem_of_In, in_flat_map. exists j.
    split; apply list_elem_of_In; [done|]. apply IH; [lia | done].
Qed.

(** The computed ancestors are the steps with a path into the step. *)
Lemma ancestors_spec i d :
  wired_in_order g = true → (d ∈ ancestors g i ↔ tc (edge g) d i).
Proof.
  intros Hw. unfold ancestors. rewrite elem_of_list_to_set. split.
  - apply ancestors_upto_sound.
  - intros Hp. apply ancestors_upto_complete; [done | | done].
    destruct (tc_edge_last d i Hp) as [(t & Ht & _) | (j & _ & t & Ht & _)];
      by apply lookup_lt_Some in Ht.
Qed.
End ancestry.

Section ancestry_runs.
Variable reg : Registry.
Variable g : Graph.

(** A scheduled step had every ancestor succeed, not only its parents. *)
Lemma scheduled_after_ancestors (s : RunState) d i :
  reachable reg g s → tc (edge g) d i → scheduled s i →
  ∃ outs, s !! d = Some (Succeeded outs).
Proof.
  intros Hrun Hp. induction Hp as [d i (t & Ht & Hd) | d j i (t & Ht & Hd) _ IH]; intros Hs.
  - by eapply scheduled_after_upstream.
  - destruct (IH Hs) as [outs Ho].
    eapply scheduled_after_upstream; [exact Hrun | exact Ht | | exact Hd].
    unfold scheduled. rewrite Ho. eauto.
Qed.

Lemma resolve_inputs_delete (s : RunState) d ins :
  (∀ k d' sel, (k, AOut d' sel) ∈ ins → d' ≠ d) →
  resolve_inputs (delete d s) ins = resolve_inputs s ins.
Proof.
  induction ins as [|[k a] rest IH]; intros Hne; simpl; [done|].
  rewrite IH by (intros k' d' sel Hin; eapply Hne; by right).
  destruct a as [v|d' sel]; simpl; [done|].
  rewrite lookup_delete_ne; [done|].
  intros ->. eapply Hne; [by left | done].
Qed.

(** Forgetting the outcome of a step nothing depends on leaves a run of the
    same graph: no other step was scheduled, or fed, because of it. *)
Lemma erase_sink (s : RunState) d :
  consumers g d = [] → reachable reg g s → reachable reg g (delete d s).
Proof.
  intros Hsink. destruct (no_consumers g d Hsink) as [Hedge _].
  unfold reachable. revert s.
  apply (rtc_ind_r (λ s : RunState, rtc (step reg g) ∅ (delete d s))).
  - rewrite delete_empty. apply rtc_refl.
  - intros s1 s2 _ Hstep IH.
    assert (∀ j t, g !! j = Some t → j ≠ d → s1 !! j = None →
                   upstream_succeeded s1 t →
                   delete d s1 !! j = None ∧ upstream_succeeded (delete d s1) t ∧
                   resolve_inputs (delete d s1) (inputs t) = resolve_inputs s1 (inputs t))
      as Hsame.
    { intros j t Ht Hne Hfresh Hup. split; [by rewrite lookup_delete_ne|]. split.
      - unfold upstream_succeeded in *. rewrite Forall_forall in Hup.
        apply Forall_forall. intros d' Hd'. destruct (Hup d' Hd') as [outs Ho].
        exists outs. rewrite lookup_delete_ne; [done|].
        intros <-. apply (Hedge j). by exists t.
      - apply resolve_inputs_delete. intros k d' sel Hin ->.
        apply (Hedge j). exists t. split; [done|].
        unfold deps. apply elem_of_app. left. by eapply data_deps_input. }
    destruct Hstep as [j t ins outs s Ht Hfresh Hup Hins Hok | j t s Ht Hfresh Hup].
    + destruct (decide (d = j)) as [->|Hne]; [by rewrite delete_insert_eq|].
      rewrite delete_insert_ne by done.
      destruct (Hsame j t Ht ltac:(done) Hfresh Hup) as (Hf & Hu & Hr).
      eapply rtc_r; [exact IH|].
      eapply step_succeed; [exact Ht | exact Hf | exact Hu | by rewrite Hr | exact Hok].
    + destruct (decide (d = j)) as [->|Hne]; [by rewrite delete_insert_eq|].
      rewrite delete_insert_ne by done.
      destruct (Hsame j t Ht ltac:(done) Hfresh Hup) as (Hf & Hu & _).
      eapply rtc_r; [exact IH|]. by eapply step_fail.
Qed.
End ancestry_runs.

(** The first transition of a run takes a step that waits for nothing. *)
Lemma first_step reg (g : Graph) (s : RunState) :
  step reg g ∅ s → ∃ i t o, g !! i = Some t ∧ deps t = [] ∧ s = {[ i := o ]}.
Proof.
  intros Hstep. remember (∅ : RunState) as s0 eqn:Hs0.
  assert (∀ t, upstream_succeeded s0 t → deps t = []) as Hnone.
  { intros t Hup. unfold upstream_succeeded in Hup.
    destruct (deps t) as [|d rest]; [reflexivity|].
    apply Forall_cons in Hup as [[outs Hd] _]. subst s0.
    rewrite lookup_empty in Hd. discriminate Hd. }
  destruct Hstep as [i t ins outs s0 Ht _ Hup _ _ | i t s0 Ht _ Hup].
  - exists i, t, (Succeeded outs). split; [done|]. split; [by apply Hnone|].
    subst s0. by rewrite insert_empty.
  - exists i, t, Failed. split; [done|]. split; [by apply Hnone|].
    subst s0. by rewrite insert_empty.
Qed.

Lemma show_anomalies_run_passed v outs :
  show_anomalies_run [(Kw "anomalies", v); (Kw "fail_on_anomalies", VBool true)]
    = Succeeded outs →
  v = VAnomalies [].
Proof.
  unfold show_anomalies_run. simpl. destruct v as [| | |report|]; try discriminate.
  case_bool_decide as Hrep; [by subst | discriminate].
Qed.

Lemma lookup_model_run_found reg project location name label outs :
  lookup_model_run reg
    [ (Kw "model_name", VStr name); (Kw "model_label", VStr label);
      (Kw "project_location", VStr location); (Kw "project_id", VStr project);
      (Kw "fail_on_model_not_found", VBool true) ] = Succeeded outs →
  is_Some (find_model reg project location name label).
Proof.
  unfold lookup_model_run. simpl.
  destruct (find_model reg project location name label); [eauto | discriminate].
Qed.

(** ** Which parameter reaches which step *)

Lemma built_graph_length (p : Params) : List.length (built_graph p) = 10.
Proof. by_evaluation. Qed.

Lemma built_graph_beyond (p : Params) (i : nat) : (10 ≤ i)%nat → built_graph p !! i = None.
Proof. intros Hi. apply lookup_ge_None_2. rewrite built_graph_length. exact Hi. Qed.

(** X1: the ingestion project, the ingestion dataset and the cutoff reach the
    graph through the query of the ingest step only: replacing them changes
    no other step and no other argument of the ingest step, and the query is
    the template rendered on these three values. *)
Theorem ingestion_parameters_reach_only_the_query
    (p : Params) (project dataset cutoff : string) :
  ∃ g g',
    pipeline_graph p = Some g ∧
    pipeline_graph (with_ingestion p project dataset cutoff) = Some g' ∧
    (∀ i, i ≠ ingest → g' !! i = g !! i) ∧
    drop_input "query" <$> g' !! ingest = drop_input "query" <$> g !! ingest ∧
    input_of g' ingest "query" =
      str <$> generate_query ingest_sql
                [ ("source_dataset", project +:+ "." +:+ dataset);
                  ("source_table", "taxi_trips");
                  ("filter_column", "trip_start_timestamp");
                  ("filter_start_value", cutoff) ].
Proof.
  exists (built_graph p), (built_graph (with_ingestion p project dataset cutoff)).
  do 2 (split; [apply pipeline_graph_built|]).
  split; [|split; by_evaluation].
  intros i Hne. destruct i as [|i]; [by destruct Hne|].
  do 9 (destruct i as [|i]; [by_evaluation|]).
  rewrite !built_graph_beyond by lia. reflexivity.
Qed.

(** X2: the model name and label reach the lookup step only; the machine type
    and the replica counts reach the batch-prediction step only; the base
    path and the schema file name reach the skew validator only; the
    training-statistics path reaches the visualisation and the validator
    only.  Every other step is the same whatever these parameters are. *)
Theorem parameter_groups_reach_only_their_steps (p : Params) :
  ∃ g,
    pipeline_graph p = Some g ∧
    (∀ name label i, i ≠ champion_model →
       built_graph (with_model p name label) !! i = g !! i) ∧
    (∀ machine lo hi i, i ≠ batch_prediction →
       built_graph (with_batch_sizing p machine lo hi) !! i = g !! i) ∧
    (∀ base file i, i ≠ validated_skew →
       built_graph (with_schema p base file) !! i = g !! i) ∧
    (∀ stats i, i ≠ visualised_statistics → i ≠ validated_skew →
       built_graph (with_train_stats p stats) !! i = g !! i).
Proof.
  exists (built_graph p). split; [apply pipeline_graph_built|].
  split; [|split; [|split]].
  - intros name label i Hne.
    do 10 (destruct i as [|i]; [first [by_evaluation | by destruct Hne]|]).
    rewrite !built_graph_beyond by lia. reflexivity.
  - intros machine lo hi i Hne.
    do 10 (destruct i as [|i]; [first [by_evaluation | by destruct Hne]|]).
    rewrite !built_graph_beyond by lia. reflexivity.
  - intros base file i Hne.
    do 10 (destruct i as [|i]; [first [by_evaluation | by destruct Hne]|]).
    rewrite !built_graph_beyond by lia. reflexivity.
  - intros stats i Hne1 Hne2.
    do 10 (destruct i as [|i];
           [first [by_evaluation | by destruct Hne1 | by destruct Hne2]|]).
    rewrite !built_graph_beyond by lia. reflexivity.
Qed.

(** X3: for replica counts in the signed 64-bit range, batch prediction reads
    its model from the lookup step and both its source URIs and its
    destination prefix from the prediction extract, and from no other step;
    the minimum replica count becomes the starting replica count and the
    maximum the maximum, in whatever order the two stand; load predictions
    reads the batch-prediction job and writes a table other than the one the
    ingest step truncates. *)
Theorem inference_chain_wiring (p : Params) (machine : string) (lo hi : Z) :
  int64 lo →
  int64 hi →
  ∃ g,
    pipeline_graph (with_batch_sizing p machine lo hi) = Some g ∧
    input_of g batch_prediction "model" = Some (outputs champion_model "model") ∧
    input_of g batch_prediction "gcs_source_uris" =
      Some (outputs data_for_prediction "dataset_gcs_uri") ∧
    input_of g batch_prediction "gcs_destination_output_uri_prefix" =
      Some (outputs data_for_prediction "dataset_gcs_prefix") ∧
    (∀ d, data_edge g d batch_prediction ↔ d = champion_model ∨ d = data_for_prediction) ∧
    input_of g batch_prediction "machine_type" = Some (str machine) ∧
    input_of g batch_prediction "starting_replica_count" = Some (int lo) ∧
    input_of g batch_prediction "max_replica_count" = Some (int hi) ∧
    input_of g loaded_data "dataset" = Some (outputs batch_prediction "batchpredictionjob") ∧
    (∀ d, data_edge g d loaded_data ↔ d = batch_prediction) ∧
    (∃ staging predictions,
       input_of g ingest "table_id" = Some (str staging) ∧
       input_of g loaded_data "table_name" = Some (str predictions) ∧
       staging ≠ predictions).
Proof.
  intros _ _.
  exists (built_graph (with_batch_sizing p machine lo hi)).
  split; [apply pipeline_graph_built|].
  do 3 (split; [by_evaluation|]).
  split.
  { intros d. rewrite <- data_edgeb_spec. unfold data_edgeb.
    replace (built_graph (with_batch_sizing p machine lo hi) !! batch_prediction)
      with (Some (default (mkTask LoadDatasetToBq None [] [])
                    (built_graph (with_batch_sizing p machine lo hi) !! batch_prediction)))
      by by_evaluation.
    rewrite bool_decide_eq_true.
    replace (data_deps (default (mkTask LoadDatasetToBq None [] [])
               (built_graph (with_batch_sizing p machine lo hi) !! batch_prediction)))
      with [champion_model; data_for_prediction; data_for_prediction] by by_evaluation.
    rewrite !elem_of_cons, elem_of_nil. tauto. }
  do 4 (split; [by_evaluation|]).
  split.
  { intros d. rewrite <- data_edgeb_spec. unfold data_edgeb.
    replace (built_graph (with_batch_sizing p machine lo hi) !! loaded_data)
      with (Some (default (mkTask LoadDatasetToBq None [] [])
                    (built_graph (with_batch_sizing p machine lo hi) !! loaded_data)))
      by by_evaluation.
    rewrite bool_decide_eq_true.
    replace (data_deps (default (mkTask LoadDatasetToBq None [] [])
               (built_graph (with_batch_sizing p machine lo hi) !! loaded_data)))
      with [batch_prediction] by by_evaluation.
    rewrite !elem_of_cons, elem_of_nil. tauto. }
  exists ingested_table, "tensorflow_staging_predictions".
  split; [by_evaluation|]. split; [by_evaluation|]. vm_compute. discriminate.
Qed.

Lemma inference_chain_wiring_witness :
  ∃ g,
    pipeline_graph (with_batch_sizing example_params "n1-standard-16" 10 3) = Some g ∧
    input_of g batch_prediction "model" = Some (outputs champion_model "model") ∧
    input_of g batch_prediction "gcs_source_uris" =
      Some (outputs data_for_prediction "dataset_gcs_uri") ∧
    input_of g batch_prediction "gcs_destination_output_uri_prefix" =
      Some (outputs data_for_prediction "dataset_gcs_prefix") ∧
    (∀ d, data_edge g d batch_prediction ↔ d = champion_model ∨ d = data_for_prediction) ∧
    input_of g batch_prediction "machine_type" = Some (str "n1-standard-16") ∧
    input_of g batch_prediction "starting_replica_count" = Some (int 10) ∧
    input_of g batch_prediction "max_replica_count" = Some (int 3) ∧
    input_of g loaded_data "dataset" = Some (outputs batch_prediction "batchpredictionjob") ∧
    (∀ d, data_edge g d loaded_data ↔ d = batch_prediction) ∧
    (∃ staging predictions,
       input_of g ingest "table_id" = Some (str staging) ∧
       input_of g loaded_data "table_name" = Some (str predictions) ∧
       staging ≠ predictions).
Proof.
  apply (inference_chain_wiring example_params "n1-standard-16" 10 3);
    unfold int64; lia.
Defined.

(** X4: every step that takes a client, source or destination project is
    given the pipeline project, never the ingestion project; every step that
    takes a dataset id or a dataset location is given the staging dataset and
    its location; every step that takes a file pattern is given the same,
    empty, pattern.  The steps concerned are listed. *)
Theorem shared_arguments_agree (p : Params) :
  ∃ g,
    pipeline_graph p = Some g ∧
    (∀ i t, g !! i = Some t →
       passes "bq_client_project_id" (str (project_id p)) t ∧
       passes "source_project_id" (str (project_id p)) t ∧
       passes "destination_project_id" (str (project_id p)) t ∧
       passes "project" (str (project_id p)) t ∧
       passes "project_id" (str (project_id p)) t ∧
       passes "dataset_id" (str (dataset_id p)) t ∧
       passes "dataset_location" (str (dataset_location p)) t ∧
       passes "file_pattern" (str "") t) ∧
    carriers g "bq_client_project_id" =
      [ingest; data_for_prediction; data_for_validation; loaded_data] ∧
    carriers g "dataset_id" =
      [ingest; data_for_prediction; data_for_validation; loaded_data] ∧
    carriers g "dataset_location" =
      [ingest; data_for_prediction; data_for_validation; loaded_data] ∧
    carriers g "file_pattern" =
      [data_for_prediction; data_for_validation; serving_stats].
Proof.
  exists (built_graph p). split; [apply pipeline_graph_built|].
  split; [|repeat split; by_evaluation].
  intros i t Ht. destruct p.
  do 10 (destruct i as [|i];
         [ vm_compute in Ht; injection Ht as <-;
           repeat split; intros a Ha; vm_compute in Ha;
           first [discriminate Ha | injection Ha as <-; reflexivity] |]).
  apply lookup_lt_Some in Ht. rewrite built_graph_length in Ht. lia.
Qed.

(** X5: the steps that wait for nothing are the ingest step and the model
    lookup, so a run can only start with one of these; the steps nothing
    waits for are the visualisation and load predictions. *)
Theorem roots_and_sinks (p : Params) :
  ∃ g,
    pipeline_graph p = Some g ∧
    (∀ i, deps_of g i = Some [] ↔ i = ingest ∨ i = champion_model) ∧
    (∀ i, i < List.length g →
          (consumers g i = [] ↔ i = visualised_statistics ∨ i = loaded_data)) ∧
    (∀ reg s, step reg g ∅ s →
              ∃ o, s = {[ ingest := o ]} ∨ s = {[ champion_model := o ]}).
Proof.
  exists (built_graph p). split; [apply pipeline_graph_built|].
  assert (∀ i, deps_of (built_graph p) i = Some [] ↔ i = ingest ∨ i = champion_model)
    as Hroots.
  { intros i. split.
    - intros H.
      do 10 (destruct i as [|i];
             [first [left; reflexivity | right; reflexivity | (vm_compute in H; discriminate H)]|]).
      unfold deps_of in H. rewrite built_graph_beyond in H by lia. discriminate H.
    - intros [-> | ->]; by_evaluation. }
  split; [exact Hroots|]. split.
  - intros i Hlt. rewrite built_graph_length in Hlt. split.
    + intros H.
      do 10 (destruct i as [|i];
             [first [left; reflexivity | right; reflexivity | (vm_compute in H; discriminate H)]|]).
      lia.
    + intros [-> | ->]; by_evaluation.
  - intros reg s Hstep.
    destruct (first_step reg (built_graph p) s Hstep) as (i & t & o & Ht & Hd & Hs).
    exists o. rewrite Hs.
    assert (i = ingest ∨ i = champion_model) as [Hi | Hi].
    { apply Hroots. unfold deps_of. rewrite Ht. simpl. rewrite Hd. reflexivity. }
    + left. rewrite Hi. reflexivity.
    + right. rewrite Hi. reflexivity.
Qed.

(** ** What each step waits for *)

Lemma built_graph_ancestors (p : Params) :
  ancestors (built_graph p) loaded_data =
    list_to_set [ ingest; data_for_prediction; data_for_validation; serving_stats;
                  validated_skew; anomalies; champion_model; batch_prediction ] ∧
  ancestors (built_graph p) batch_prediction =
    list_to_set [ ingest; data_for_prediction; data_for_validation; serving_stats;
                  validated_skew; anomalies; champion_model ] ∧
  ancestors (built_graph p) anomalies =
    list_to_set [ ingest; data_for_validation; serving_stats; validated_skew ] ∧
  ancestors (built_graph p) champion_model = ∅.
Proof. repeat split; by_evaluation. Qed.

(** X6: load predictions is downstream of every step but the visualisation;
    batch prediction is downstream of exactly the ingest step, both
    extracts, statistics, the validator, the gate and the lookup; the gate is
    downstream of the validation chain only, so neither the lookup nor the
    prediction extract waits for it or is waited for by it; the lookup is
    downstream of nothing. *)
Theorem what_each_step_waits_for (p : Params) :
  ∃ g,
    pipeline_graph p = Some g ∧
    (∀ d, tc (edge g) d loaded_data ↔
          d ∈ [ ingest; data_for_prediction; data_for_validation; serving_stats;
                validated_skew; anomalies; champion_model; batch_prediction ]) ∧
    (∀ d, tc (edge g) d batch_prediction ↔
          d ∈ [ ingest; data_for_prediction; data_for_validation; serving_stats;
                validated_skew; anomalies; champion_model ]) ∧
    (∀ d, tc (edge g) d anomalies ↔
          d ∈ [ ingest; data_for_validation; serving_stats; validated_skew ]) ∧
    (∀ d, ¬ tc (edge g) d champion_model).
Proof.
  exists (built_graph p). split; [apply pipeline_graph_built|].
  pose proof (built_graph_wired_in_order p) as Hw.
  destruct (built_graph_ancestors p) as (Hload & Hbatch & Hgate & Hlookup).
  pose proof (ancestors_spec (built_graph p)) as Hspec.
  generalize dependent (built_graph p). intros g Hw Hload Hbatch Hgate Hlookup Hspec.
  split; [|split; [|split]].
  - intros d. rewrite <- (Hspec _ _ Hw), Hload. apply elem_of_list_to_set.
  - intros d. rewrite <- (Hspec _ _ Hw), Hbatch. apply elem_of_list_to_set.
  - intros d. rewrite <- (Hspec _ _ Hw), Hgate. apply elem_of_list_to_set.
  - intros d. rewrite <- (Hspec _ _ Hw), Hlookup. apply not_elem_of_empty.
Qed.

(** X10: every step carries a display name and the ten names are pairwise
    different, whatever the parameters. *)
Theorem display_names_distinct (p : Params) :
  ∃ g names,
    pipeline_graph p = Some g ∧
    map display_name g = map Some names ∧
    List.length names = 10 ∧
    NoDup names.
Proof.
  exists (built_graph p),
    [ "Ingest data"; "Extract data to storage for prediction";
      "Extract data to storage for validation"; "Generate data statistics";
      "Visualise data statistics"; "Validate data skew"; "Show anomalies";
      "Lookup champion model"; "Vertex Batch Predictions for TF model";
      "Load predictions into Bigquery" ].
  split; [apply pipeline_graph_built|]. split; [by_evaluation|].
  split; [reflexivity|]. refine (bool_decide_eq_true_1 (NoDup _) _). by_evaluation.
Qed.

(** ** Runs: what a loaded prediction table implies, and what never matters *)

Lemma succeeded_as reg (g : Graph) (s : RunState) i c ins outs :
  reachable reg g s →
  component_of g i = Some c →
  step_inputs g s i = Some ins →
  s !! i = Some (Succeeded outs) →
  may_succeed reg c ins outs.
Proof.
  intros Hrun Hc Hins Ho.
  destruct (succeeded_on_inputs reg g s i outs Hrun Ho) as (t & ins' & Ht & Hins' & Hok).
  unfold component_of in Hc. rewrite Ht in Hc. injection Hc as <-.
  rewrite Hins in Hins'. injection Hins' as <-. exact Hok.
Qed.

Lemma scheduled_after_computed_ancestors reg (g : Graph) (s : RunState) i d :
  wired_in_order g = true → reachable reg g s → scheduled s i →
  d ∈ ancestors g i → ∃ outs, s !! d = Some (Succeeded outs).
Proof.
  intros Hw Hrun Hs Hd. apply ancestors_spec in Hd; [|exact Hw].
  by eapply scheduled_after_ancestors.
Qed.

(** A gate that reads the validator's output and has passed was given an
    empty report. *)
Lemma gate_passed_clean reg (g : Graph) (s : RunState) gate skew outs :
  reachable reg g s →
  component_of g gate = Some ShowAnomalies →
  step_inputs g s gate =
    match resolve s (AOut skew TheOutput) with
    | Some v => Some [(Kw "anomalies", v); (Kw "fail_on_anomalies", VBool true)]
    | None => None
    end →
  s !! gate = Some (Succeeded outs) →
  ∃ outs', s !! skew = Some (Succeeded outs') ∧
           assoc TheOutput outs' = Some (VAnomalies []).
Proof.
  intros Hrun Hc Hins Ho. unfold resolve in Hins.
  destruct (succeeded_on_inputs reg g s gate outs Hrun Ho) as (_ & ins & _ & Hsome & _).
  destruct (s !! skew) as [[outs'|]|] eqn:Hskew;
    [|rewrite Hins in Hsome; discriminate Hsome..].
  destruct (assoc TheOutput outs') as [v|] eqn:Hv;
    [|rewrite Hins in Hsome; discriminate Hsome].
  pose proof (succeeded_as reg g s gate ShowAnomalies _ outs Hrun Hc Hins Ho) as Hok.
  simpl in Hok. apply show_anomalies_run_passed in Hok. subst v. eauto.
Qed.

(** A step nothing depends on may fail, once its upstream steps have
    succeeded, without any other outcome of the run changing. *)
Lemma fail_sink reg (g : Graph) (s : RunState) d t :
  g !! d = Some t → consumers g d = [] → reachable reg g s →
  upstream_succeeded s t → reachable reg g (<[d := Failed]> s).
Proof.
  intros Ht Hsink Hrun Hup.
  destruct (no_consumers g d Hsink) as [Hedge _].
  rewrite <- insert_delete_eq. eapply rtc_r; [by apply erase_sink|].
  eapply step_fail; [exact Ht | apply lookup_delete_eq |].
  unfold upstream_succeeded in *. rewrite Forall_forall in Hup.
  apply Forall_forall. intros d' Hd'. destruct (Hup d' Hd') as [outs Ho].
  exists outs. rewrite lookup_delete_ne; [done|].
  intros <-. apply (Hedge d). by exists t.
Qed.

Lemma gate_inputs (p : Params) (s : RunState) :
  step_inputs (built_graph p) s anomalies =
    match resolve s (AOut validated_skew TheOutput) with
    | Some v => Some [(Kw "anomalies", v); (Kw "fail_on_anomalies", VBool true)]
    | None => None
    end.
Proof. by_evaluation. Qed.

Lemma lookup_inputs (p : Params) (s : RunState) :
  step_inputs (built_graph p) s champion_model =
    Some [ (Kw "model_name", VStr (model_name p));
           (Kw "model_label", VStr (model_label p));
           (Kw "project_location", VStr (project_location p));
           (Kw "project_id", VStr (project_id p));
           (Kw "fail_on_model_not_found", VBool true) ].
Proof. by_evaluation. Qed.

(** X7: in every run, once load predictions has been scheduled, every step
    except the visualisation has succeeded, the report the validator produced
    lists no anomaly, and the registry holds a model matching the name and
    the label for the project and location. *)
Theorem predictions_loaded_only_after_clean_validation
    (p : Params) (reg : Registry) (g : Graph) (s : RunState) :
  pipeline_graph p = Some g →
  reachable reg g s →
  scheduled s loaded_data →
  (∀ d, d ∈ [ ingest; data_for_prediction; data_for_validation; serving_stats;
              validated_skew; anomalies; champion_model; batch_prediction ] →
        ∃ outs, s !! d = Some (Succeeded outs)) ∧
  (∃ outs, s !! validated_skew = Some (Succeeded outs) ∧
           assoc TheOutput outs = Some (VAnomalies [])) ∧
  is_Some (find_model reg (project_id p) (project_location p)
                      (model_name p) (model_label p)).
Proof.
  intros Hg Hrun Hs. apply pipeline_graph_is_built in Hg. subst g.
  assert (∀ d, d ∈ [ ingest; data_for_prediction; data_for_validation; serving_stats;
                     validated_skew; anomalies; champion_model; batch_prediction ] →
               ∃ outs, s !! d = Some (Succeeded outs)) as Hanc.
  { intros d Hd.
    apply (scheduled_after_computed_ancestors reg (built_graph p) s loaded_data d
             (built_graph_wired_in_order p) Hrun Hs).
    rewrite (proj1 (built_graph_ancestors p)). apply elem_of_list_to_set. exact Hd. }
  split; [exact Hanc|]. split.
  - destruct (Hanc anomalies) as [outs Ho].
    { rewrite !elem_of_cons. auto 10. }
    exact (gate_passed_clean reg (built_graph p) s anomalies validated_skew outs Hrun
             ltac:(by_evaluation) (gate_inputs p s) Ho).
  - destruct (Hanc champion_model) as [outs Ho].
    { rewrite !elem_of_cons. auto 10. }
    pose proof (succeeded_as reg (built_graph p) s champion_model LookupModel _ outs Hrun
                  ltac:(by_evaluation) (lookup_inputs p s) Ho) as Hok.
    exact (lookup_model_run_found reg _ _ _ _ outs Hok).
Qed.

Lemma predictions_loaded_only_after_clean_validation_witness :
  (∀ d, d ∈ [ ingest; data_for_prediction; data_for_validation; serving_stats;
              validated_skew; anomalies; champion_model; batch_prediction ] →
        ∃ outs, healthy_run !! d = Some (Succeeded outs)) ∧
  (∃ outs, healthy_run !! validated_skew = Some (Succeeded outs) ∧
           assoc TheOutput outs = Some (VAnomalies [])) ∧
  is_Some (find_model example_registry (project_id example_params)
             (project_location example_params) (model_name example_params)
             (model_label example_params)).
Proof.
  apply (predictions_loaded_only_after_clean_validation example_params example_registry
           (built_graph example_params) healthy_run).
  - vm_compute; reflexivity.
  - apply (replay_reachable _ _ _ healthy_schedule). vm_compute; reflexivity.
  - exists (Succeeded []). vm_compute; reflexivity.
Defined.

(** X8: the outcome of the visualisation step is immaterial to a run:
    forgetting it leaves a run of the graph, and once the statistics step has
    succeeded the visualisation may be recorded as failed with every other
    outcome, load predictions included, unchanged. *)
Theorem visualisation_outcome_is_immaterial
    (p : Params) (reg : Registry) (g : Graph) (s : RunState) :
  pipeline_graph p = Some g →
  reachable reg g s →
  reachable reg g (delete visualised_statistics s) ∧
  ((∃ outs, s !! serving_stats = Some (Succeeded outs)) →
   reachable reg g (<[visualised_statistics := Failed]> s) ∧
   ∀ i, i ≠ visualised_statistics →
        <[visualised_statistics := Failed]> s !! i = s !! i).
Proof.
  intros Hg Hrun. apply pipeline_graph_is_built in Hg. subst g.
  split.
  - apply erase_sink; [by_evaluation | exact Hrun].
  - intros [outs Ho]. split.
    + apply (fail_sink reg (built_graph p) s visualised_statistics
               (default (mkTask VisualiseStatistics None [] [])
                        (built_graph p !! visualised_statistics)));
        [by_evaluation | by_evaluation | exact Hrun |].
      unfold upstream_succeeded.
      replace (deps (default (mkTask VisualiseStatistics None [] [])
                             (built_graph p !! visualised_statistics)))
        with [serving_stats] by by_evaluation.
      apply Forall_cons. split; [exists outs; exact Ho | apply Forall_nil_2].
    + intros i Hne. apply lookup_insert_ne. intros Heq. apply Hne. symmetry. exact Heq.
Qed.

Lemma visualisation_outcome_is_immaterial_witness :
  reachable example_registry (built_graph example_params)
            (delete visualised_statistics healthy_run) ∧
  ((∃ outs, healthy_run !! serving_stats = Some (Succeeded outs)) →
   reachable example_registry (built_graph example_params)
             (<[visualised_statistics := Failed]> healthy_run) ∧
   ∀ i, i ≠ visualised_statistics →
        <[visualised_statistics := Failed]> healthy_run !! i = healthy_run !! i).
Proof.
  apply (visualisation_outcome_is_immaterial example_params example_registry
           (built_graph example_params) healthy_run).
  - vm_compute; reflexivity.
  - apply (replay_reachable _ _ _ healthy_schedule). vm_compute; reflexivity.
Defined.

(** The run with the visualisation recorded as failed is the run the engine
    produces when the visualisation does fail; predictions are loaded. *)
Example failed_visualisation_still_loads :
  <[visualised_statistics := Failed]> healthy_run = unseen_run ∧
  replay example_registry (built_graph example_params) ∅ unseen_schedule = Some unseen_run ∧
  unseen_run !! loaded_data = Some (Succeeded []).
Proof. repeat split; by_evaluation. Qed.

(** X9: as long as the ingest step has not succeeded, no step other than the
    ingest step itself and the model lookup is scheduled: every other step
    is downstream of ingestion. *)
Theorem nothing_but_lookup_runs_before_ingest
    (p : Params) (reg : Registry) (g : Graph) (s : RunState) (i : TaskRef) :
  pipeline_graph p = Some g →
  reachable reg g s →
  (∀ outs, s !! ingest ≠ Some (Succeeded outs)) →
  scheduled s i →
  i = ingest ∨ i = champion_model.
Proof.
  intros Hg Hrun Hnot Hs. apply pipeline_graph_is_built in Hg. subst g.
  assert (∀ j, ingest ∈ ancestors_upto (built_graph p) 10 j → ¬ scheduled s j) as Hblock.
  { intros j Hj Hsj. apply ancestors_upto_sound in Hj.
    destruct (scheduled_after_ancestors reg (built_graph p) s ingest j Hrun Hj Hsj)
      as [outs Ho].
    exact (Hnot outs Ho). }
  do 10 (destruct i as [|i];
         [ first [ left; reflexivity | right; reflexivity
                 | exfalso; refine (Hblock _ _ Hs);
                   refine (bool_decide_eq_true_1 (_ ∈ _) _); by_evaluation ] |]).
  exfalso. destruct Hs as [o Ho].
  destruct (reachable_justified reg (built_graph p) s Hrun _ o Ho) as (t & Ht & _).
  apply lookup_lt_Some in Ht. rewrite built_graph_length in Ht. lia.
Qed.

Lemma nothing_but_lookup_runs_before_ingest_witness :
  champion_model = ingest ∨ champion_model = champion_model.
Proof.
  apply (nothing_but_lookup_runs_before_ingest example_params example_registry
           (built_graph example_params) failed_ingest_run champion_model).
  - vm_compute; reflexivity.
  - apply (replay_reachable _ _ _ failed_ingest_schedule). vm_compute; reflexivity.
  - intros outs. vm_compute. discriminate.
  - eexists. vm_compute; reflexivity.
Defined.

(** X11: the validator and the visualisation compare the same pair of
    statistics: both read the single output of the statistics step as the
    serving statistics and both are given the training-statistics path
    parameter; the statistics step reads the dataset of the validation
    extract, not of the prediction extract, as its first positional argument;
    the validator runs in the [SERVING] environment. *)
Theorem validation_chain_wiring (p : Params) :
  ∃ g t,
    pipeline_graph p = Some g ∧
    g !! serving_stats = Some t ∧
    assoc (Pos 0) (inputs t) = Some (outputs data_for_validation "dataset") ∧
    (∀ d, data_edge g d serving_stats ↔ d = data_for_validation) ∧
    input_of g visualised_statistics "statistics" = Some (output serving_stats) ∧
    input_of g validated_skew "serving_statistics" = Some (output serving_stats) ∧
    input_of g visualised_statistics "other_statistics_path" =
      Some (str (tfdv_train_stats_path p)) ∧
    input_of g validated_skew "training_statistics_path" =
      Some (str (tfdv_train_stats_path p)) ∧
    input_of g validated_skew "environment" = Some (str "SERVING") ∧
    input_of g anomalies "anomalies" = Some (output validated_skew).
Proof.
  exists (built_graph p),
    (default (mkTask GenerateStatistics None [] []) (built_graph p !! serving_stats)).
  split; [apply pipeline_graph_built|].
  do 2 (split; [by_evaluation|]).
  split.
  { intros d. rewrite <- data_edgeb_spec. unfold data_edgeb.
    replace (built_graph p !! serving_stats)
      with (Some (default (mkTask GenerateStatistics None [] [])
                          (built_graph p !! serving_stats))) by by_evaluation.
    rewrite bool_decide_eq_true.
    replace (data_deps (default (mkTask GenerateStatistics None [] [])
                                (built_graph p !! serving_stats)))
      with [data_for_validation] by by_evaluation.
    rewrite !elem_of_cons, elem_of_nil. tauto. }
  repeat split; by_evaluation.
Qed.
